(** * FlacLossless backend: job manager, progress stream and range server

    A shallow embedding of [backend/server.py].  Python objects that are
    shared between threads (the job table, the work queue, the cache
    dictionary, the audio directory) become explicit state that the
    functions below receive and return.  Whatever the outside world decides
    (uuids, yt-dlp's progress reports and outcome, ffmpeg, the clock, the
    files on disk) is an explicit argument.

    Conventions of the model:
    - a [str] is a [string] (one character per byte, as WSGI hands headers
      and path segments over); an [int] is a [Z];
    - the audio directory is a finite map from path to the bytes of the
      regular file stored there;
    - library calls are taken at their documented behaviour: [int] is the
      decimal literal parser and, like [str] of an integer, raises
      [ValueError] above 4300 digits; [str.replace], [str.split],
      [os.path.join] and [os.path.basename] are the POSIX string functions;
      [f.seek] raises beyond the offsets a file can be positioned at;
      [send_file] is Flask's conditional [send_file], which reads the
      [Range] header of the request itself (Werkzeug 3); the [os.remove]
      of [delete_cached] and of the cleanup raises on the paths the
      operating system refuses to unlink;
    - a request carries no validator ([If-None-Match], [If-Modified-Since],
      [If-Range]);
    - a job is observed through the snapshots its worker publishes with
      [notify_subscribers]: the assignments between two calls form one
      step;
    - [int((downloaded / total) * 60)] is the exact quotient truncated
      towards zero. *)

From Stdlib Require Import ZArith QArith String Ascii DecimalString List Bool
  Sorted Lia.
From stdpp Require Import base option list gmap strings.

Import ListNotations.
Local Open Scope Z_scope.

(** ** Python string helpers *)

Module PyStr.

(** [sub in s] *)
Fixpoint contains (sub s : string) : bool :=
  String.prefix sub s ||
  match s with
  | EmptyString => false
  | String _ r => contains sub r
  end.

(** [s.replace(old, new)] for a non-empty [old]: leftmost, non-overlapping
    occurrences; [skip] counts the characters of a match still to drop. *)
Fixpoint replace_go (old new : string) (skip : nat) (s : string) : string :=
  match s with
  | EmptyString => EmptyString
  | String c r =>
      match skip with
      | S k => replace_go old new k r
      | O =>
          if String.prefix old s
          then String.append new (replace_go old new (String.length old - 1) r)
          else String c (replace_go old new 0 r)
      end
  end.

Definition replace (old new s : string) : string := replace_go old new 0 s.

(** [s.split(sep)] for a one-character separator: never the empty list. *)
Fixpoint split (sep : ascii) (s : string) : list string :=
  match s with
  | EmptyString => [EmptyString]
  | String c r =>
      if Ascii.eqb c sep then EmptyString :: split sep r
      else match split sep r with
           | h :: t => String c h :: t
           | [] => [String c EmptyString]
           end
  end.

(** [os.path.basename(p)]: what follows the last slash. *)
Definition basename (p : string) : string :=
  List.last (split "/"%char p) EmptyString.

(** [os.path.join(a, b)] (posixpath). *)
Definition ends_with_slash (a : string) : bool :=
  match String.get (String.length a - 1) a with
  | Some c => Ascii.eqb c "/"%char
  | None => false
  end.

Definition path_join (a b : string) : string :=
  if String.prefix "/" b then b
  else if (String.eqb a "" || ends_with_slash a)%bool then String.append a b
  else String.append a (String "/"%char b).

(** [str(n)] for an integer. *)
Definition of_int (n : Z) : string := NilZero.string_of_int (Z.to_int n).

(** Characters that [int] strips on both sides. *)
Definition is_space (c : ascii) : bool :=
  let n := N_of_ascii c in
  (((9 <=? n) && (n <=? 13)) || ((28 <=? n) && (n <=? 32))
   || (n =? 133) || (n =? 160))%N.

Fixpoint lstrip (s : string) : string :=
  match s with
  | EmptyString => EmptyString
  | String c r => if is_space c then lstrip r else s
  end.

Fixpoint rstrip (s : string) : string :=
  match s with
  | EmptyString => EmptyString
  | String c r =>
      match rstrip r with
      | EmptyString => if is_space c then EmptyString else String c EmptyString
      | r' => String c r'
      end
  end.

Definition strip (s : string) : string := rstrip (lstrip s).

(** [s.lower()] on the characters of a header (Latin-1). *)
Definition lower_char (c : ascii) : ascii :=
  let n := N_of_ascii c in
  if (((65 <=? n) && (n <=? 90))
      || ((192 <=? n) && (n <=? 222) && negb (n =? 215)))%N
  then ascii_of_N (n + 32) else c.

Fixpoint lower (s : string) : string :=
  match s with
  | EmptyString => EmptyString
  | String c r => String (lower_char c) (lower r)
  end.

(** [s.split(sep, 1)] for a separator that occurs in [s]: what stands
    before its first occurrence, and what follows it. *)
Fixpoint partition (sep : ascii) (s : string) : string * string :=
  match s with
  | EmptyString => (EmptyString, EmptyString)
  | String c r =>
      if Ascii.eqb c sep then (EmptyString, r)
      else let '(a, b) := partition sep r in (String c a, b)
  end.

Definition digit_val (c : ascii) : option Z :=
  let n := N_of_ascii c in
  if ((48 <=? n) && (n <=? 57))%N then Some (Z.of_N n - 48) else None.

(** The digits of a decimal literal, single underscores allowed between
    digits; [prev] tells whether the previous character was a digit. *)
Fixpoint int_digits (acc : Z) (prev : bool) (s : string) : option Z :=
  match s with
  | EmptyString => if prev then Some acc else None
  | String c r =>
      match digit_val c with
      | Some d => int_digits (10 * acc + d) true r
      | None =>
          if (Ascii.eqb c "_"%char && prev)%bool then int_digits acc false r
          else None
      end
  end.

(** [sys.get_int_max_str_digits()], at its default. *)
Definition max_str_digits : Z := 4300.

Fixpoint count_digits (s : string) : Z :=
  match s with
  | EmptyString => 0
  | String c r =>
      (match digit_val c with Some _ => 1 | None => 0 end) + count_digits r
  end.

(** [int(s)]: [None] stands for [ValueError], which is raised for what is
    no decimal literal and for a literal of more than [max_str_digits]
    digits. *)
Definition to_int (s : string) : option Z :=
  let t := strip s in
  if max_str_digits <? count_digits t then None
  else
    match t with
    | String "+"%char r => int_digits 0 false r
    | String "-"%char r => Z.opp <$> int_digits 0 false r
    | _ => int_digits 0 false t
    end.

(** [str(n)], also when [n] is formatted in an f-string or assigned to a
    header: [None] stands for the [ValueError] raised for a number of more
    than [max_str_digits] digits. *)
Definition str_int (n : Z) : option string :=
  if Z.abs n <? 10 ^ max_str_digits then Some (of_int n) else None.

End PyStr.

(** ** Files and responses *)

Abbreviation bytes := (list Byte.byte).

(** The regular files of the machine, by path. *)
Abbreviation filesystem := (gmap string bytes).

Definition path_exists (fs : filesystem) (p : string) : bool :=
  bool_decide (is_Some (fs !! p)).

Definition getsize (fs : filesystem) (p : string) : Z :=
  match fs !! p with
  | Some content => Z.of_nat (length content)
  | None => 0
  end.

(** The JSON scalars stored in metadata dictionaries. *)
Inductive pyval :=
| PyNone
| PyInt (n : Z)
| PyStr (s : string).

Abbreviation pydict := (list (string * pyval)).

(** The JSON objects the views build with [jsonify]. *)
Inductive json_body :=
| ErrorBody (error : string)
| DownloadBody (file : option string) (metadata : pydict) (cached : bool)
    (video_id : string)
| MetadataBody (video_id : string) (metadata : pydict) (file : string)
    (downloaded_at : option string).

(** What a Flask view returns: a text or a JSON object with a status code,
    or a response object with status, mimetype, the headers the view sets
    (in the order it sets them) and the chunks of the body.  [StreamFailure]
    is a response object whose body generator raises before it yields a
    chunk.  [HttpException] is an [HTTPException] of Werkzeug that leaves
    the view and that Flask answers with its code and headers; [Unhandled]
    is any other exception that leaves the view. *)
Inductive response :=
| TextResponse (text : string) (status : Z)
| JsonResponse (body : json_body) (status : Z)
| FileResponse (status : Z) (mimetype : string)
    (headers : list (string * string)) (chunks : list bytes)
| StreamFailure (status : Z) (mimetype : string)
    (headers : list (string * string))
| HttpException (status : Z) (headers : list (string * string))
| Unhandled (exception : string).

Definition response_status (r : response) : Z :=
  match r with
  | TextResponse _ st => st
  | JsonResponse _ st => st
  | FileResponse st _ _ _ => st
  | StreamFailure st _ _ => st
  | HttpException st _ => st
  | Unhandled _ => 500
  end.

Definition response_headers (r : response) : list (string * string) :=
  match r with
  | FileResponse _ _ hs _ => hs
  | StreamFailure _ _ hs => hs
  | HttpException _ hs => hs
  | _ => []
  end.

Definition response_body (r : response) : bytes :=
  match r with
  | FileResponse _ _ _ chunks => concat chunks
  | _ => []
  end.

Definition header (name : string) (r : response) : option string :=
  snd <$> List.find (fun kv => String.eqb (fst kv) name) (response_headers r).

(** ** [stream_audio] *)

(** The [while remaining > 0] loop of [generate]: [rest] is what the file
    object has not read yet.  Every round of the loop that does not stop
    reads at least one byte, so [Z.to_nat remaining] rounds are enough. *)
Fixpoint generate_loop (fuel : nat) (rest : bytes) (remaining : Z)
  : list bytes :=
  match fuel with
  | O => []
  | S k =>
      if 0 <? remaining then
        let chunk_size := Z.min 8192 remaining in
        let data := take (Z.to_nat chunk_size) rest in
        match data with
        | [] => []
        | _ :: _ =>
            data :: generate_loop k (drop (length data) rest)
                      (remaining - Z.of_nat (length data))
        end
      else []
  end.

(** [f.seek(start)] on the file opened for reading: it raises
    [ValueError] when [start] does not fit the offset type of the platform
    (64 bits, signed) and [OSError] when the file system cannot position a
    file there; [max_offset] is the largest offset the file system of the
    audio directory allows. *)
Definition seekable (max_offset : N) (start : Z) : bool :=
  (0 <=? start) && (start <=? Z.of_N max_offset) && (start <? 2 ^ 63).

(** [generate()]: open, seek to [start], then the loop; [None] when
    [seek] raises, which happens when the body is first asked for. *)
Definition generate (max_offset : N) (content : bytes) (start length : Z)
  : option (list bytes) :=
  if seekable max_offset start
  then Some (generate_loop (Z.to_nat length) (drop (Z.to_nat start) content)
               length)
  else None.

(** The [try] block up to [length]: [None] when [int] raises [ValueError]
    or [byte_range[1]] raises [IndexError]. *)
Definition range_fields (range_header : string) : list string :=
  PyStr.split "-"%char (PyStr.replace "bytes=" "" range_header).

Definition parse_range (range_header : string) (file_size : Z)
  : option (Z * Z) :=
  let byte_range := range_fields range_header in
  match byte_range with
  | f0 :: rest =>
      start ← (if String.eqb f0 "" then Some 0 else PyStr.to_int f0);
      match rest with
      | f1 :: _ =>
          end_ ← (if String.eqb f1 "" then Some (file_size - 1)
                  else PyStr.to_int f1);
          Some (start, end_)
      | [] => None
      end
  | [] => None
  end.

(** The rest of the [try] block: the response object around the generator
    and its four headers; [None] when writing [start], [end] or [length]
    in a header raises [ValueError].  (A file size is below [2 ^ 63] and
    is always written.) *)
Definition partial_response (max_offset : N) (content : bytes)
    (file_size start end_ : Z) : option response :=
  let length := end_ - start + 1 in
  start_str ← PyStr.str_int start;
  end_str ← PyStr.str_int end_;
  length_str ← PyStr.str_int length;
  let headers :=
    [ ("Content-Range",
       "bytes " +:+ start_str +:+ "-" +:+ end_str
         +:+ "/" +:+ PyStr.of_int file_size);
      ("Accept-Ranges", "bytes");
      ("Content-Length", length_str);
      ("Cache-Control", "no-cache") ] in
  Some match generate max_offset content start length with
       | Some chunks => FileResponse 206 "audio/mpeg" headers chunks
       | None => StreamFailure 206 "audio/mpeg" headers
       end.

(** The whole [try] block; [None] when it is left by an exception. *)
Definition range_response (max_offset : N) (content : bytes)
    (file_size : Z) (range_header : string) : option response :=
  '(start, end_) ← parse_range range_header file_size;
  partial_response max_offset content file_size start end_.

(** *** The range handling of [send_file]

    [send_file] is called with its default [conditional=True]: Werkzeug
    looks for a [Range] header in the request, whatever the view has made
    of it before. *)
Module Werkzeug.
Import PyStr.

Fixpoint all_ascii_digits (s : string) : bool :=
  match s with
  | EmptyString => true
  | String c r =>
      match digit_val c with Some _ => all_ascii_digits r | None => false end
  end.

(** [_plain_int_re.fullmatch(value)], the pattern being [-?\d+] (ASCII). *)
Definition plain_int_re (value : string) : bool :=
  match value with
  | String "-"%char r => negb (String.eqb r "") && all_ascii_digits r
  | _ => negb (String.eqb value "") && all_ascii_digits value
  end.

(** [_plain_int(value)]; [None] stands for [ValueError]. *)
Definition plain_int (value : string) : option Z :=
  let value := strip value in
  if plain_int_re value then to_int value else None.

(** One round of the loop of [parse_range_header] over the items between
    commas: the range read from [item] and the new [last_end]; [None] is
    [return None]. *)
Definition parse_item (last_end : Z) (item : string)
  : option ((Z * option Z) * Z) :=
  let item := strip item in
  if negb (contains "-" item) then None
  else if String.prefix "-" item then
    if last_end <? 0 then None
    else begin ← plain_int item; Some ((begin, None), -1)
  else
    let '(begin_str, end_str) := partition "-" item in
    let begin_str := strip begin_str in
    let end_str := strip end_str in
    begin ← plain_int begin_str;
    if ((begin <? last_end) || (last_end <? 0))%bool then None
    else if negb (String.eqb end_str "") then
      end_ ← (fun n => n + 1) <$> plain_int end_str;
      if end_ <=? begin then None
      else Some ((begin, Some end_), end_)
    else Some ((begin, None), -1).

Fixpoint parse_items (last_end : Z) (items : list string)
  : option (list (Z * option Z)) :=
  match items with
  | [] => Some []
  | item :: rest =>
      '(range, last_end') ← parse_item last_end item;
      ranges ← parse_items last_end' rest;
      Some (range :: ranges)
  end.

(** [parse_range_header(value)]: the units and the ranges, the end of a
    range being exclusive. *)
Definition parse_range_header (value : string)
  : option (string * list (Z * option Z)) :=
  if (String.eqb value "" || negb (contains "=" value))%bool then None
  else
    let '(units, rng) := partition "=" value in
    let units := lower (strip units) in
    ranges ← parse_items 0 (split "," rng);
    Some (units, ranges).

Definition is_byte_range_valid (start stop length : Z) : bool :=
  if stop <=? start then false else (0 <=? start) && (start <? length).

(** [Range.range_for_length(length)] *)
Definition range_for_length (range : string * list (Z * option Z))
    (length : Z) : option (Z * Z) :=
  match range with
  | (units, [(start, end_)]) =>
      if negb (String.eqb units "bytes") then None
      else
        let '(start, end_) :=
          match end_ with
          | None => (if start <? 0 then start + length else start, length)
          | Some end_ => (start, end_)
          end in
        if is_byte_range_valid start end_ length
        then Some (start, Z.min end_ length)
        else None
  | _ => None
  end.

(** What [make_conditional] does with the [Range] header of a request
    for a file of [complete_length] bytes: nothing ([inr None]), a range
    to answer with 206 ([inr (Some _)]), or [RequestedRangeNotSatisfiable]
    ([inl tt]). *)
Definition process_range_request (range_header : option string)
    (complete_length : Z) : unit + option (Z * Z) :=
  match range_header with
  | None => inr None
  | Some value =>
      if complete_length =? 0 then inr None
      else
        match parse_range_header value
              ≫= (fun range => range_for_length range complete_length) with
        | Some range => inr (Some range)
        | None => inl tt
        end
  end.

End Werkzeug.

(** The last four lines of the view: [send_file], then the three headers
    the view sets on its answer.  When [send_file] raises
    [RequestedRangeNotSatisfiable] the headers are not reached and Flask
    answers 416. *)
Definition full_response (content : bytes) (file_size : Z) : response :=
  FileResponse 200 "audio/mpeg"
    [ ("Accept-Ranges", "bytes");
      ("Content-Length", PyStr.of_int file_size);
      ("Cache-Control", "no-cache") ]
    [content].

Definition send_file_response (content : bytes) (file_size : Z)
    (range_header : option string) : response :=
  match Werkzeug.process_range_request range_header file_size with
  | inr None => full_response content file_size
  | inr (Some (start, stop)) =>
      FileResponse 206 "audio/mpeg"
        [ ("Content-Range",
           "bytes " +:+ PyStr.of_int start +:+ "-" +:+ PyStr.of_int (stop - 1)
             +:+ "/" +:+ PyStr.of_int file_size);
          ("Accept-Ranges", "bytes");
          ("Content-Length", PyStr.of_int file_size);
          ("Cache-Control", "no-cache") ]
        [take (Z.to_nat (stop - start)) (drop (Z.to_nat start) content)]
  | inl tt =>
      HttpException 416
        [ ("Content-Range", "bytes */" +:+ PyStr.of_int file_size) ]
  end.

(** [max_offset] belongs to the file system the audio directory is on. *)
Definition stream_audio (AUDIO_DIR : string) (max_offset : N)
    (fs : filesystem) (range_header : option string) (filename : string)
  : response :=
  if (PyStr.contains ".." filename || PyStr.contains "/" filename)%bool
  then TextResponse "Forbidden" 403
  else
    let file_path := PyStr.path_join AUDIO_DIR filename in
    match fs !! file_path with
    | None => TextResponse "Not Found" 404
    | Some content =>
        let file_size := Z.of_nat (length content) in
        let fallback := send_file_response content file_size range_header in
        match range_header with
        | Some (String _ _ as h) =>
            match range_response max_offset content file_size h with
            | Some r => r
            | None => fallback
            end
        | _ => fallback
        end
    end.

(** ** Job records *)

(** The four values the [status] attribute takes. *)
Inductive job_status := queued | downloading | completed | failed.

Global Instance job_status_eq_dec : EqDecision job_status.
Proof. solve_decision. Defined.

Definition status_str (s : job_status) : string :=
  match s with
  | queued => "queued"
  | downloading => "downloading"
  | completed => "completed"
  | failed => "failed"
  end.

(** [status in ['completed', 'failed']] *)
Definition terminal (s : job_status) : bool :=
  match s with
  | completed | failed => true
  | _ => false
  end.

(** The texts of the [stage] attribute; the speed of [Downloading... (x)]
    is kept as the number the hook received, not as formatted text. *)
Inductive stage_text :=
| StageWaiting            (* "Waiting..." *)
| StageLoadedFromCache    (* "Loaded from cache" *)
| StageStarting           (* "Starting download..." *)
| StageFetchingInfo       (* "Fetching video info..." *)
| StageDownloadingAt (speed : Z)
| StageDownloadingPlain   (* "Downloading..." *)
| StageConverting         (* "Converting to MP3..." *)
| StageFinalizing         (* "Finalizing..." *)
| StageComplete           (* "Complete!" *)
| StageFailed.            (* "Failed" *)

(** [DownloadJob.to_dict()]: what observers are sent and what
    [GET /jobs/<id>] returns. *)
Record snapshot := {
  snap_job_id : string;
  snap_video_id : string;
  snap_url : string;
  snap_title : string;
  snap_status : job_status;
  snap_progress : Z;
  snap_stage : stage_text;
  snap_error : option string;
  snap_stream_url : option string;
  snap_metadata : pydict;
  snap_created_at : string
}.

(** A subscriber's [Queue]: Python compares queues by identity, which
    [sq_id] stands for; [sq_items] is what has been put and not yet got. *)
Record subscriber_queue := {
  sq_id : nat;
  sq_items : list snapshot
}.

Record DownloadJob := {
  job_id : string;
  video_id : string;
  url : string;
  title : string;
  status : job_status;
  progress : Z;
  stage : stage_text;
  error : option string;
  stream_url : option string;
  metadata : pydict;
  created_at : string;
  subscribers : list subscriber_queue;
  file_path : option string
}.

(** [DownloadJob.__init__] *)
Definition new_job (job_id video_id url title now : string) : DownloadJob :=
  {| job_id := job_id; video_id := video_id; url := url; title := title;
     status := queued; progress := 0; stage := StageWaiting;
     error := None; stream_url := None; metadata := [];
     created_at := now; subscribers := []; file_path := None |}.

Definition to_dict (j : DownloadJob) : snapshot :=
  {| snap_job_id := job_id j; snap_video_id := video_id j;
     snap_url := url j; snap_title := title j; snap_status := status j;
     snap_progress := progress j; snap_stage := stage j;
     snap_error := error j; snap_stream_url := stream_url j;
     snap_metadata := metadata j; snap_created_at := created_at j |}.

(** Attribute assignments. *)
Definition set_title (v : string) (j : DownloadJob) : DownloadJob :=
  {| job_id := job_id j; video_id := video_id j; url := url j; title := v;
     status := status j; progress := progress j; stage := stage j;
     error := error j; stream_url := stream_url j; metadata := metadata j;
     created_at := created_at j; subscribers := subscribers j;
     file_path := file_path j |}.

Definition set_status (v : job_status) (j : DownloadJob) : DownloadJob :=
  {| job_id := job_id j; video_id := video_id j; url := url j;
     title := title j; status := v; progress := progress j;
     stage := stage j; error := error j; stream_url := stream_url j;
     metadata := metadata j; created_at := created_at j;
     subscribers := subscribers j; file_path := file_path j |}.

Definition set_progress (v : Z) (j : DownloadJob) : DownloadJob :=
  {| job_id := job_id j; video_id := video_id j; url := url j;
     title := title j; status := status j; progress := v;
     stage := stage j; error := error j; stream_url := stream_url j;
     metadata := metadata j; created_at := created_at j;
     subscribers := subscribers j; file_path := file_path j |}.

Definition set_stage (v : stage_text) (j : DownloadJob) : DownloadJob :=
  {| job_id := job_id j; video_id := video_id j; url := url j;
     title := title j; status := status j; progress := progress j;
     stage := v; error := error j; stream_url := stream_url j;
     metadata := metadata j; created_at := created_at j;
     subscribers := subscribers j; file_path := file_path j |}.

Definition set_error (v : option string) (j : DownloadJob) : DownloadJob :=
  {| job_id := job_id j; video_id := video_id j; url := url j;
     title := title j; status := status j; progress := progress j;
     stage := stage j; error := v; stream_url := stream_url j;
     metadata := metadata j; created_at := created_at j;
     subscribers := subscribers j; file_path := file_path j |}.

Definition set_stream_url (v : option string) (j : DownloadJob)
  : DownloadJob :=
  {| job_id := job_id j; video_id := video_id j; url := url j;
     title := title j; status := status j; progress := progress j;
     stage := stage j; error := error j; stream_url := v;
     metadata := metadata j; created_at := created_at j;
     subscribers := subscribers j; file_path := file_path j |}.

Definition set_metadata (v : pydict) (j : DownloadJob) : DownloadJob :=
  {| job_id := job_id j; video_id := video_id j; url := url j;
     title := title j; status := status j; progress := progress j;
     stage := stage j; error := error j; stream_url := stream_url j;
     metadata := v; created_at := created_at j;
     subscribers := subscribers j; file_path := file_path j |}.

Definition set_subscribers (v : list subscriber_queue) (j : DownloadJob)
  : DownloadJob :=
  {| job_id := job_id j; video_id := video_id j; url := url j;
     title := title j; status := status j; progress := progress j;
     stage := stage j; error := error j; stream_url := stream_url j;
     metadata := metadata j; created_at := created_at j;
     subscribers := v; file_path := file_path j |}.

Definition set_file_path (v : option string) (j : DownloadJob)
  : DownloadJob :=
  {| job_id := job_id j; video_id := video_id j; url := url j;
     title := title j; status := status j; progress := progress j;
     stage := stage j; error := error j; stream_url := stream_url j;
     metadata := metadata j; created_at := created_at j;
     subscribers := subscribers j; file_path := v |}.

(** [q.put(event_data)] *)
Definition queue_put (s : snapshot) (q : subscriber_queue)
  : subscriber_queue :=
  {| sq_id := sq_id q; sq_items := sq_items q ++ [s] |}.

(** [DownloadJob.notify_subscribers()]: the current snapshot goes to the
    queue of every registered subscriber. *)
Definition notify_subscribers (j : DownloadJob) : DownloadJob :=
  set_subscribers (map (queue_put (to_dict j)) (subscribers j)) j.

(** ** The cache and the job manager *)

(** An entry of [cache.json]; a field is [None] when its key is absent
    (or null) in the stored object. *)
Record cache_entry := {
  ce_file : option string;
  ce_metadata : option pydict;
  ce_downloaded_at : option string;
  ce_file_id : option string
}.

Abbreviation cache_store := (gmap string cache_entry).

(** [JobManager]: the job table and the FIFO work queue (its head first).
    The lock makes each [create_job] one atomic step. *)
Record JobManager := {
  jobs : gmap string DownloadJob;
  job_queue : list string
}.

(** The test of [create_job] and [download_audio] on a cached entry:
    [file_path and os.path.exists(file_path) and getsize(file_path) > 0]. *)
Definition valid_file (fs : filesystem) (file_path : string) : bool :=
  (negb (String.eqb file_path "") && path_exists fs file_path
   && (0 <? getsize fs file_path))%bool.

Definition cached_job (job_id now video_id url title : string)
    (cached_entry : cache_entry) (file_path : string) : DownloadJob :=
  set_file_path (Some file_path)
    (set_metadata (default [] (ce_metadata cached_entry))
       (set_stream_url (Some ("/stream/" +:+ PyStr.basename file_path))
          (set_stage StageLoadedFromCache
             (set_progress 100
                (set_status completed
                   (new_job job_id video_id url title now)))))).

(** [JobManager.create_job]; [job_id] is the uuid drawn for the job and
    [now] the creation time. *)
Definition create_job (cache : cache_store) (fs : filesystem)
    (job_id now : string) (video_id url title : string) (m : JobManager)
  : DownloadJob * JobManager :=
  let miss :=
    let job := new_job job_id video_id url title now in
    (job, {| jobs := <[job_id := job]> (jobs m);
             job_queue := job_queue m ++ [job_id] |}) in
  match cache !! video_id with
  | Some cached_entry =>
      let file_path := default "" (ce_file cached_entry) in
      if valid_file fs file_path then
        let job := cached_job job_id now video_id url title
                     cached_entry file_path in
        (job, {| jobs := <[job_id := job]> (jobs m);
                 job_queue := job_queue m |})
      else miss
  | None => miss
  end.

Definition get_job (m : JobManager) (job_id : string) : option DownloadJob :=
  jobs m !! job_id.

(** ** The worker *)

(** One call of [progress_hook] by yt-dlp: the dictionary [d].  A numeric
    field is [None] when its key is absent. *)
Inductive hook_status := HookDownloading | HookFinished | HookOther.

Record hook_report := {
  d_status : hook_status;
  d_total_bytes : option Z;
  d_total_bytes_estimate : option Z;
  d_downloaded_bytes : option Z;
  d_speed : option Z
}.

(** What yt-dlp hands back from [extract_info]; an absent key is [None]. *)
Record video_info := {
  info_title : option string;
  info_duration : option Z;
  info_thumbnail : option string;
  info_uploader : option string;
  info_channel : option string
}.

(** Everything the outside world decides during one [_process_job]. *)
Record job_run := {
  run_file_id : string;                 (* str(uuid.uuid4()) *)
  run_reports : list hook_report;       (* calls of progress_hook *)
  run_extract : string + video_info;    (* extract_info raises or returns *)
  run_files : filesystem;               (* the disk once extract_info is over *)
  run_ffmpeg : string + option bytes;   (* subprocess.run raises, or returns
                                           having written this output *)
  run_save_cache : option string;       (* save_cache raises *)
  run_now : string                      (* datetime.now().isoformat() *)
}.

(** The state one worker thread acts on, with the history of the snapshots
    it has published through [notify_subscribers]. *)
Record worker_state := {
  ws_job : DownloadJob;
  ws_cache : cache_store;
  ws_fs : filesystem;
  ws_published : list snapshot
}.

(** Statements that may raise: a state monad whose result is either the
    exception's message or a value; the state reached when the exception
    is raised is kept. *)
Definition Py (A : Type) : Type := worker_state -> (string + A) * worker_state.

Definition ret {A} (a : A) : Py A := fun s => (inr a, s).

Definition raise {A} (msg : string) : Py A := fun s => (inl msg, s).

Definition bind {A B} (m : Py A) (k : A -> Py B) : Py B :=
  fun s =>
    match m s with
    | (inr a, s') => k a s'
    | (inl e, s') => (inl e, s')
    end.

Definition try_except {A} (body : Py A) (handler : string -> Py A) : Py A :=
  fun s =>
    match body s with
    | (inl e, s') => handler e s'
    | r => r
    end.

Global Instance Py_ret : MRet Py := @ret.
Global Instance Py_bind : MBind Py := fun A B k m => bind m k.

Definition update_job (f : DownloadJob -> DownloadJob) : Py unit :=
  fun s => (inr tt, {| ws_job := f (ws_job s); ws_cache := ws_cache s;
                       ws_fs := ws_fs s; ws_published := ws_published s |}).

Definition read_job : Py DownloadJob := fun s => (inr (ws_job s), s).

Definition read_fs : Py filesystem := fun s => (inr (ws_fs s), s).

Definition write_fs (fs : filesystem) : Py unit :=
  fun s => (inr tt, {| ws_job := ws_job s; ws_cache := ws_cache s;
                       ws_fs := fs; ws_published := ws_published s |}).

Definition update_cache (f : cache_store -> cache_store) : Py unit :=
  fun s => (inr tt, {| ws_job := ws_job s; ws_cache := f (ws_cache s);
                       ws_fs := ws_fs s; ws_published := ws_published s |}).

(** [job.notify_subscribers()], recorded in the history. *)
Definition notify : Py unit :=
  fun s => (inr tt, {| ws_job := notify_subscribers (ws_job s);
                       ws_cache := ws_cache s; ws_fs := ws_fs s;
                       ws_published :=
                         ws_published s ++ [to_dict (ws_job s)] |}).

(** [d.get('total_bytes') or d.get('total_bytes_estimate', 0)] *)
Definition hook_total (d : hook_report) : Z :=
  match d_total_bytes d with
  | Some t => if t =? 0 then default 0 (d_total_bytes_estimate d) else t
  | None => default 0 (d_total_bytes_estimate d)
  end.

(** [int((downloaded / total) * 60) + 10]: the quotient is taken exactly
    and truncated towards zero, as [int] does. *)
Definition hook_pct (downloaded total : Z) : Z :=
  Z.quot (downloaded * 60) total + 10.

Definition progress_hook (d : hook_report) : Py unit :=
  match d_status d with
  | HookDownloading =>
      let total := hook_total d in
      let downloaded := default 0 (d_downloaded_bytes d) in
      (if 0 <? total
       then update_job (set_progress (Z.min (hook_pct downloaded total) 70))
       else update_job (fun j => set_progress (Z.min (progress j + 1) 70) j));;
      (match d_speed d with
       | Some speed =>
           if speed =? 0 then update_job (set_stage StageDownloadingPlain)
           else update_job (set_stage (StageDownloadingAt speed))
       | None => update_job (set_stage StageDownloadingPlain)
       end);;
      notify
  | HookFinished =>
      update_job (set_progress 75);;
      update_job (set_stage StageConverting);;
      notify
  | HookOther => ret tt
  end.

Fixpoint run_hooks (ds : list hook_report) : Py unit :=
  match ds with
  | [] => ret tt
  | d :: rest => progress_hook d;; run_hooks rest
  end.

(** [ydl.extract_info(job.url, download=True)]: the hooks are called, the
    disk changes, and the call raises or returns. *)
Definition extract_info (w : job_run) : Py video_info :=
  run_hooks (run_reports w);;
  write_fs (run_files w);;
  match run_extract w with
  | inl msg => raise msg
  | inr info => ret info
  end.

Definition info_metadata (info : video_info) (job_title : string) : pydict :=
  [ ("title",
     PyStr (default (if String.eqb job_title "" then "Unknown" else job_title)
              (info_title info)));
    ("duration", PyInt (default 0 (info_duration info)));
    ("thumbnail", PyStr (default "" (info_thumbnail info)));
    ("uploader",
     PyStr (default (default "Unknown" (info_channel info))
              (info_uploader info))) ].

(** [subprocess.run(['ffmpeg', '-i', alt_path, ..., '-y', output_path])] *)
Definition ffmpeg (w : job_run) (output_path : string) : Py unit :=
  match run_ffmpeg w with
  | inl msg => raise msg
  | inr (Some out) => fs ← read_fs; write_fs (<[output_path := out]> fs)
  | inr None => ret tt
  end.

(** [os.remove(path)] *)
Definition os_remove (path : string) : Py unit :=
  fs ← read_fs; write_fs (delete path fs).

(** The [for ext in [...]] loop; it returns [output_path], which only the
    branch for ['mp3'] rebinds. *)
Fixpoint find_output (AUDIO_DIR : string) (w : job_run) (exts : list string)
    (output_path : string) : Py string :=
  match exts with
  | [] => ret output_path
  | ext :: rest =>
      let alt_path :=
        PyStr.path_join AUDIO_DIR (run_file_id w +:+ "." +:+ ext) in
      fs ← read_fs;
      if (path_exists fs alt_path && (0 <? getsize fs alt_path))%bool then
        if negb (String.eqb ext "mp3") then
          ffmpeg w output_path;;
          os_remove alt_path;;
          ret output_path
        else ret alt_path
      else find_output AUDIO_DIR w rest output_path
  end.

Definition new_cache_entry (w : job_run) (output_path : string)
    (meta : pydict) : cache_entry :=
  {| ce_file := Some output_path; ce_metadata := Some meta;
     ce_downloaded_at := Some (run_now w);
     ce_file_id := Some (run_file_id w) |}.

(** [save_cache(cache)] *)
Definition save_cache (w : job_run) : Py unit :=
  match run_save_cache w with
  | Some msg => raise msg
  | None => ret tt
  end.

(** The [try] block of [_process_job]. *)
Definition process_job_body (AUDIO_DIR : string) (w : job_run) : Py unit :=
  update_job (set_status downloading);;
  update_job (set_stage StageStarting);;
  update_job (set_progress 5);;
  notify;;
  let file_id := run_file_id w in
  let output_path := PyStr.path_join AUDIO_DIR (file_id +:+ ".mp3") in
  update_job (set_stage StageFetchingInfo);;
  update_job (set_progress 10);;
  notify;;
  info ← extract_info w;
  update_job (fun j => set_metadata (info_metadata info (title j)) j);;
  update_job (fun j =>
    set_title (default (if String.eqb (title j) "" then "Unknown"
                        else title j) (info_title info)) j);;
  update_job (set_progress 85);;
  update_job (set_stage StageFinalizing);;
  notify;;
  fs ← read_fs;
  output_path ←
    (if negb (path_exists fs output_path)
     then find_output AUDIO_DIR w ["mp3"; "m4a"; "webm"; "opus"; "ogg"]
            output_path
     else ret output_path);
  fs ← read_fs;
  (if (negb (path_exists fs output_path) || (getsize fs output_path =? 0))%bool
   then raise "Download failed - no output file created"
   else ret tt);;
  job ← read_job;
  update_cache
    (insert (video_id job) (new_cache_entry w output_path (metadata job)));;
  save_cache w;;
  update_job (set_file_path (Some output_path));;
  update_job
    (set_stream_url (Some ("/stream/" +:+ PyStr.basename output_path)));;
  update_job (set_progress 100);;
  update_job (set_stage StageComplete);;
  update_job (set_status completed);;
  notify.

(** The [except Exception as e] block. *)
Definition process_job_failed (e : string) : Py unit :=
  update_job (set_status failed);;
  update_job (set_error (Some e));;
  update_job (set_stage StageFailed);;
  notify.

Definition _process_job (AUDIO_DIR : string) (w : job_run) : Py unit :=
  try_except (process_job_body AUDIO_DIR w) process_job_failed.

(** ** The running server *)

(** The module-level state: the job manager, the [cache] dictionary and
    the disk. *)
Record server := {
  job_manager : JobManager;
  cache : cache_store;
  disk : filesystem
}.

(** One round of the [while True] loop of [_worker] that gets a job id
    from the queue: the state after it and the snapshots published
    meanwhile.  On an empty queue [get] blocks and nothing happens. *)
Definition _worker (AUDIO_DIR : string) (w : job_run) (s : server)
  : server * list snapshot :=
  match job_queue (job_manager s) with
  | [] => (s, [])
  | job_id :: rest =>
      let table := jobs (job_manager s) in
      match table !! job_id with
      | Some job =>
          if decide (status job = queued) then
            let '(_, ws) :=
              _process_job AUDIO_DIR w
                {| ws_job := job; ws_cache := cache s; ws_fs := disk s;
                   ws_published := [] |} in
            ({| job_manager :=
                  {| jobs := <[job_id := ws_job ws]> table;
                     job_queue := rest |};
                cache := ws_cache ws; disk := ws_fs ws |},
             ws_published ws)
          else
            ({| job_manager := {| jobs := table; job_queue := rest |};
                cache := cache s; disk := disk s |}, [])
      | None =>
          ({| job_manager := {| jobs := table; job_queue := rest |};
              cache := cache s; disk := disk s |}, [])
      end
  end.

(** [job_manager.create_job(...)] on the server state. *)
Definition server_create_job (job_id now video_id url title : string)
    (s : server) : DownloadJob * server :=
  let '(job, m) :=
    create_job (cache s) (disk s) job_id now video_id url title
      (job_manager s) in
  (job, {| job_manager := m; cache := cache s; disk := disk s |}).

(** ** [get_metadata] *)

Definition get_metadata (cache : cache_store) (video_id : string)
  : response :=
  match cache !! video_id with
  | None => JsonResponse (ErrorBody "Not in cache") 404
  | Some entry =>
      match ce_file entry with
      | None => Unhandled "KeyError: 'file'"
      | Some file =>
          JsonResponse
            (MetadataBody video_id (default [] (ce_metadata entry))
               ("/stream/" +:+ PyStr.basename file)
               (ce_downloaded_at entry))
            200
      end
  end.

(** ** [download_audio] *)

(** The view, once [extract_video_id] has found [video_id], runs in three
    parts: the cache test and [create_job]; the polling loop, during which
    the workers act on the job; the answer built from the job as it is
    when the loop is over. *)

(** First part: the cached answer, or the new job and the state. *)
Definition download_audio_begin (job_id now video_id url : string)
    (s : server) : response + DownloadJob * server :=
  let create := inr (server_create_job job_id now video_id url "" s) in
  match cache s !! video_id with
  | Some cached_entry =>
      let file_path := default "" (ce_file cached_entry) in
      if valid_file (disk s) file_path then
        inl (JsonResponse
               (DownloadBody (Some ("/stream/" +:+ PyStr.basename file_path))
                  (default [] (ce_metadata cached_entry)) true video_id)
               200)
      else create
  | None => create
  end.

(** Second part: each test of the [while] condition reads [job.status]
    and, when that is not terminal, the clock ([time.time() - start], in
    seconds).  [download_wait tests] is the number of sleeps before the
    loop ends, or [None] when the tests given do not reach its end. *)
Definition timeout : Q := 180.

Definition before_timeout (elapsed : Q) : bool :=
  if Qlt_le_dec elapsed timeout then true else false.

Fixpoint download_wait (tests : list (job_status * Q)) : option nat :=
  match tests with
  | [] => None
  | (st, elapsed) :: rest =>
      if (negb (terminal st) && before_timeout elapsed)%bool
      then S <$> download_wait rest
      else Some O
  end.

(** Third part: the answer, from the job as read after the loop. *)
Definition download_audio_end (video_id : string) (job : snapshot)
  : response :=
  if decide (snap_status job = completed) then
    JsonResponse
      (DownloadBody (snap_stream_url job) (snap_metadata job) false video_id)
      200
  else
    JsonResponse
      (ErrorBody
         match snap_error job with
         | Some (String _ _ as e) => e
         | _ => "Download timed out"
         end)
      500.

(** ** [job_events] *)

(** What the generator yields. *)
Inductive sse_event :=
| Data (s : snapshot)
| Heartbeat.

(** Where the generator of one connection stands: not started, suspended
    in the loop with its queue [q], or finished. *)
Inductive stream_state :=
| StreamNew
| StreamOpen (q : nat)
| StreamClosed.

(** The [finally] block. *)
Definition unsubscribe (q : nat) (j : DownloadJob) : DownloadJob :=
  set_subscribers
    (match List.find (fun s => Nat.eqb (sq_id s) q) (subscribers j) with
     | Some _ =>
         (fix remove (l : list subscriber_queue) :=
            match l with
            | [] => []
            | s :: rest =>
                if Nat.eqb (sq_id s) q then rest else s :: remove rest
            end) (subscribers j)
     | None => subscribers j
     end) j.

(** The start of [generate]: a new queue [q] is registered and the current
    snapshot is yielded. *)
Definition stream_start (q : nat) (j : DownloadJob)
  : list sse_event * DownloadJob * stream_state :=
  ([Data (to_dict j)],
   set_subscribers (subscribers j ++ [{| sq_id := q; sq_items := [] |}]) j,
   StreamOpen q).

(** One round of the [while True] loop: [q.get(timeout=30)] hands over the
    oldest item of the queue, or raises when the queue has stayed empty. *)
Definition stream_round (q : nat) (j : DownloadJob)
  : list sse_event * DownloadJob * stream_state :=
  match List.find (fun s => Nat.eqb (sq_id s) q) (subscribers j) with
  | Some {| sq_items := data :: rest |} =>
      let j' :=
        set_subscribers
          (map (fun s => if Nat.eqb (sq_id s) q
                         then {| sq_id := q; sq_items := rest |} else s)
             (subscribers j)) j in
      if terminal (snap_status data)
      then ([Data data], unsubscribe q j', StreamClosed)
      else ([Data data], j', StreamOpen q)
  | _ =>
      if terminal (status j)
      then ([Heartbeat], unsubscribe q j, StreamClosed)
      else ([Heartbeat], j, StreamOpen q)
  end.

(** The transport goes away: the generator is closed where it is
    suspended and its [finally] block runs. *)
Definition stream_disconnect (q : nat) (j : DownloadJob)
  : list sse_event * DownloadJob * stream_state :=
  ([], unsubscribe q j, StreamClosed).

(** The generator resumed once, by the consumer asking for the next event
    ([disconnect = false]) or closing it. *)
Definition stream_step (fresh : nat) (disconnect : bool) (st : stream_state)
    (j : DownloadJob) : list sse_event * DownloadJob * stream_state :=
  match st with
  | StreamNew =>
      if disconnect then ([], j, StreamClosed) else stream_start fresh j
  | StreamOpen q =>
      if disconnect then stream_disconnect q j else stream_round q j
  | StreamClosed => ([], j, StreamClosed)
  end.

(** ** [extract_video_id] *)

(** The class [[a-zA-Z0-9_-]] of the two patterns. *)
Definition id_char (c : ascii) : bool :=
  let n := N_of_ascii c in
  (((97 <=? n) && (n <=? 122)) || ((65 <=? n) && (n <=? 90))
   || ((48 <=? n) && (n <=? 57)) || (n =? 95) || (n =? 45))%N.

(** The group [([a-zA-Z0-9_-]{n})] at the start of [s]. *)
Fixpoint match_id (n : nat) (s : string) : option string :=
  match n with
  | O => Some EmptyString
  | S k =>
      match s with
      | String c r => if id_char c then String c <$> match_id k r else None
      | EmptyString => None
      end
  end.

(** What follows the literal [lit] at the start of [s]. *)
Fixpoint after_literal (lit s : string) : option string :=
  match lit with
  | EmptyString => Some s
  | String a lit' =>
      match s with
      | String b s' => if Ascii.eqb a b then after_literal lit' s' else None
      | EmptyString => None
      end
  end.

(** One of the literals [lits], tried in their order, and then the group
    of eleven characters, at the start of [s]. *)
Fixpoint match_here (lits : list string) (s : string) : option string :=
  match lits with
  | [] => None
  | lit :: rest =>
      match after_literal lit s ≫= match_id 11 with
      | Some group => Some group
      | None => match_here rest s
      end
  end.

(** [re.search]: the match that starts leftmost; its group. *)
Fixpoint re_search (lits : list string) (s : string) : option string :=
  match match_here lits s with
  | Some group => Some group
  | None =>
      match s with
      | EmptyString => None
      | String _ r => re_search lits r
      end
  end.

Definition extract_video_id (url : string) : option string :=
  match re_search ["youtube.com/watch?v="; "youtu.be/"; "youtube.com/embed/"]
          url with
  | Some group => Some group
  | None => re_search ["v="] url
  end.

(** ** [create_download_job] and [get_job_status] *)

(** What the two views answer: the job as JSON, or an error. *)
Inductive job_response :=
| JobJson (job : snapshot)
| JobError (error : string) (status : Z).

(** [url] and [title] are [data.get('url', '')] and
    [data.get('title', '')]. *)
Definition create_download_job (job_id now : string) (url title : string)
    (s : server) : job_response * server :=
  if String.eqb url "" then (JobError "No URL provided" 400, s)
  else
    match extract_video_id url with
    | None => (JobError "Invalid YouTube URL" 400, s)
    | Some video_id =>
        let '(job, s') := server_create_job job_id now video_id url title s in
        (JobJson (to_dict job), s')
    end.

Definition get_job_status (s : server) (job_id : string) : job_response :=
  match get_job (job_manager s) job_id with
  | None => JobError "Job not found" 404
  | Some job => JobJson (to_dict job)
  end.

(** ** [delete_cached] *)

Inductive cache_response :=
| CacheDeleted (video_id : string)
| CacheError (error : string) (status : Z).

(** The paths the operating system does not unlink although they exist:
    [refuses p] is the message of the [OSError] that [os.remove(p)]
    raises (a directory, a file in a directory the process may not write
    to, a read-only file system).  The other paths that exist are the
    regular files of the disk. *)
Definition os_path_exists (refuses : string -> option string)
    (fs : filesystem) (p : string) : bool :=
  path_exists fs p || match refuses p with Some _ => true | None => false end.

(** [os.remove(p)] for a path that exists. *)
Definition unlink (refuses : string -> option string) (p : string)
    (fs : filesystem) : string + filesystem :=
  match refuses p with
  | Some msg => inl msg
  | None => inr (delete p fs)
  end.

(** [if file_path and os.path.exists(file_path): os.remove(file_path)] *)
Definition remove_if_exists (refuses : string -> option string)
    (file_path : option string) (fs : filesystem) : string + filesystem :=
  match file_path with
  | Some p =>
      if (negb (String.eqb p "") && os_path_exists refuses fs p)%bool
      then unlink refuses p fs
      else inr fs
  | None => inr fs
  end.

(** [save] says whether [save_cache] raises.  An exception of
    [os.remove] leaves the [try] block before the entry is deleted. *)
Definition delete_cached (refuses : string -> option string)
    (save : option string) (video_id : string) (s : server)
  : cache_response * server :=
  match cache s !! video_id with
  | None => (CacheError "Not found" 404, s)
  | Some entry =>
      match remove_if_exists refuses (ce_file entry) (disk s) with
      | inl msg => (CacheError msg 500, s)
      | inr fs =>
          let s' := {| job_manager := job_manager s;
                       cache := delete video_id (cache s);
                       disk := fs |} in
          match save with
          | Some msg => (CacheError msg 500, s')
          | None => (CacheDeleted video_id, s')
          end
      end
  end.

(** ** [cleanup_worker] *)

(** What [datetime.fromisoformat] reads, as a number: a time without
    offset, or a time with one.  [datetime.now()] is without offset, and
    so is [cutoff]; comparing a time that has an offset with it raises
    [TypeError]. *)
Inductive datetime :=
| Naive (t : Z)
| Aware (t : Z).

(** The body of the [for] loop for one entry; [fromisoformat] is
    [datetime.fromisoformat] ([None] when it raises), [cutoff] is
    [now - timedelta(hours=CLEANUP_HOURS)].  Whatever is raised, by
    [fromisoformat], by the comparison or by [os.remove], is caught by the
    loop and leaves the entry where it is. *)
Definition cleanup_entry (fromisoformat : string -> option datetime)
    (refuses : string -> option string) (cutoff : Z)
    (video_id : string) (entry : cache_entry)
    (acc : cache_store * filesystem * Z) : cache_store * filesystem * Z :=
  match ce_downloaded_at entry with
  | Some (String _ _ as dl_time_str) =>
      match fromisoformat dl_time_str with
      | Some (Naive dl_time) =>
          if dl_time <? cutoff then
            match remove_if_exists refuses (ce_file entry) acc.1.2 with
            | inr fs => (delete video_id acc.1.1, fs, acc.2 + 1)
            | inl _ => acc
            end
          else acc
      | Some (Aware _) => acc
      | None => acc
      end
  | _ => acc
  end.

(** One pass of the [while True] loop over [list(cache.items())]: the
    state after it and the count [deleted]. *)
Definition cleanup_pass (fromisoformat : string -> option datetime)
    (refuses : string -> option string) (cutoff : Z)
    (s : server) : server * Z :=
  let r := map_fold (cleanup_entry fromisoformat refuses cutoff)
             (cache s, disk s, 0) (cache s) in
  ({| job_manager := job_manager s; cache := r.1.1; disk := r.1.2 |}, r.2).

(** * Notions used in the statements *)

(** Strings of digits and the numbers they write. *)
Module PyStrSpec.
Import PyStr.

Definition is_digit (c : ascii) : bool :=
  match digit_val c with
  | Some _ => true
  | None => false
  end.

(** A string of decimal digits, and the number it writes. *)
Fixpoint all_digits (s : string) : bool :=
  match s with
  | EmptyString => true
  | String c r => is_digit c && all_digits r
  end.

Fixpoint decimal_from (acc : Z) (s : string) : Z :=
  match s with
  | EmptyString => acc
  | String c r => decimal_from (10 * acc + default 0 (digit_val c)) r
  end.

Definition decimal (s : string) : Z := decimal_from 0 s.

(** A string in which a given character does not occur. *)
Fixpoint free_of (x : ascii) (s : string) : bool :=
  match s with
  | EmptyString => true
  | String c r => negb (Ascii.eqb c x) && free_of x r
  end.

End PyStrSpec.

Section Notions.
Import PyStr PyStrSpec.

(** The bytes [start..end_] of a file, as far as the file has them. *)
Definition byte_span (content : bytes) (start end_ : Z) : bytes :=
  take (Z.to_nat (end_ - start + 1)) (drop (Z.to_nat start) content).

(** A field that the [try] block reads as a number. *)
Definition int_field (f : string) : bool :=
  String.eqb f "" || match to_int f with Some _ => true | None => false end.

(** A header whose first two fields between dashes, once every [bytes=] is
    deleted, are numbers or empty. *)
Definition range_readable (h : string) : bool :=
  match range_fields h with
  | f0 :: f1 :: _ => int_field f0 && int_field f1
  | _ => false
  end.

(** A file of [n] bytes to try the server on. *)
Definition sample_file (n : nat) : bytes :=
  map (fun i => default Byte.x00 (Byte.of_N (N.of_nat i mod 256))) (seq 0 n).

Definition sample_disk (n : nat) : filesystem :=
  {[ "/srv/audio/a.mp3" := sample_file n ]}.

(** A snapshot published while the job is being fetched. *)
Definition snap_running (snap : snapshot) : Prop :=
  snap_status snap = downloading /\ snap_error snap = None
  /\ snap_progress snap <= 85.

(** [lo <= a1 <= ... <= an <= hi] *)
Fixpoint chain (lo : Z) (l : list Z) (hi : Z) : Prop :=
  match l with
  | [] => lo <= hi
  | a :: r => lo <= a /\ chain a r hi
  end.

(** The reports are orderly for a total [total]: every downloading report
    carries that total, the bytes downloaded never go down, and no
    downloading report comes after a finished one. *)
Fixpoint orderly_from (total last : Z) (finished : bool)
    (ds : list hook_report) : bool :=
  match ds with
  | [] => true
  | d :: rest =>
      match d_status d with
      | HookOther => orderly_from total last finished rest
      | HookFinished => orderly_from total last true rest
      | HookDownloading =>
          negb finished && (hook_total d =? total)
          && (last <=? default 0 (d_downloaded_bytes d))
          && orderly_from total (default 0 (d_downloaded_bytes d)) false rest
      end
  end.

Definition orderly (total : Z) (ds : list hook_report) : bool :=
  (0 <? total) && orderly_from total 0 false ds.

(** What a run of [_process_job] from [s0] leaves behind: the snapshots
    [pre] of the running job, then the snapshot of the job as it ends,
    completed with its cache entry written or failed with a message. *)
Definition process_job_result (w : job_run) (s0 s : worker_state)
    (pre : list snapshot) : Prop :=
  ws_published s = ws_published s0 ++ pre ++ [to_dict (ws_job s)]
  /\ pre <> []
  /\ Forall snap_running pre
  /\ video_id (ws_job s) = video_id (ws_job s0)
  /\ ((status (ws_job s) = completed /\ progress (ws_job s) = 100
       /\ error (ws_job s) = None
       /\ exists out,
            ws_cache s !! video_id (ws_job s0)
            = Some (new_cache_entry w out (metadata (ws_job s)))
            /\ valid_file (ws_fs s) out = true
            /\ file_path (ws_job s) = Some out
            /\ stream_url (ws_job s)
               = Some ("/stream/" +:+ PyStr.basename out))
      \/ (status (ws_job s) = failed /\ progress (ws_job s) <= 85
          /\ exists e, error (ws_job s) = Some e))
  /\ (forall total,
        orderly total (run_reports w) = true ->
        progress (ws_job s0) <= 5 ->
        chain (progress (ws_job s0)) (map snap_progress pre)
          (progress (ws_job s))).

(** Sample data for the examples. *)
Definition empty_manager : JobManager := {| jobs := ∅; job_queue := [] |}.

Definition sample_entry (file : string) : cache_entry :=
  {| ce_file := Some file;
     ce_metadata := Some [("title", PyStr "Song")];
     ce_downloaded_at := Some "2024-05-01T10:00:00";
     ce_file_id := Some "f-1" |}.

Definition sample_cache : cache_store :=
  {[ "dQw4w9WgXcQ" := sample_entry "/srv/audio/a.mp3" ]}.

Definition sample_job : DownloadJob :=
  new_job "job-1" "dQw4w9WgXcQ" "https://youtu.be/dQw4w9WgXcQ" "" "t0".

Definition sample_report (st : hook_status) (total downloaded : Z)
  : hook_report :=
  {| d_status := st; d_total_bytes := Some total;
     d_total_bytes_estimate := None;
     d_downloaded_bytes := Some downloaded; d_speed := None |}.

Definition sample_info : video_info :=
  {| info_title := Some "Song"; info_duration := Some 212;
     info_thumbnail := None; info_uploader := Some "Artist";
     info_channel := None |}.

(** A run in which yt-dlp reports as [reports] says and leaves
    [/srv/audio/f-1.mp3] behind. *)
Definition sample_run (reports : list hook_report) : job_run :=
  {| run_file_id := "f-1"; run_reports := reports;
     run_extract := inr sample_info;
     run_files := {[ "/srv/audio/f-1.mp3" := sample_file 4 ]};
     run_ffmpeg := inr None; run_save_cache := None;
     run_now := "2024-05-01T10:00:00" |}.


(** The server with [sample_job] created and waiting on the queue. *)
Definition sample_server : server :=
  snd (server_create_job "job-1" "t0" "dQw4w9WgXcQ"
         "https://youtu.be/dQw4w9WgXcQ" ""
         {| job_manager := empty_manager; cache := ∅; disk := ∅ |}).

(** The snapshots of one job: the job as created, then what the worker
    publishes while it runs [_process_job] on it. *)
Definition job_trace (AUDIO_DIR : string) (w : job_run) (job : DownloadJob)
    (cache : cache_store) (fs : filesystem) : list snapshot :=
  to_dict job
  :: ws_published
       (snd (_process_job AUDIO_DIR w
               {| ws_job := job; ws_cache := cache; ws_fs := fs;
                  ws_published := [] |})).

(** A job that a worker has completed, with no subscriber. *)
Definition completed_job : DownloadJob :=
  set_status completed (set_progress 100 (set_stage StageComplete sample_job)).

(** A string of characters of the class [[a-zA-Z0-9_-]]. *)
Fixpoint id_chars (s : string) : bool :=
  match s with
  | EmptyString => true
  | String c r => id_char c && id_chars r
  end.

(** The four literals that may stand before the video id. *)
Definition id_literals : list string :=
  ["youtube.com/watch?v="; "youtu.be/"; "youtube.com/embed/"; "v="].

(** An entry that the cleanup takes for too old: it has a time, the time
    is read, it has no offset, and it lies before the cutoff. *)
Definition expired (fromisoformat : string -> option datetime) (cutoff : Z)
    (entry : cache_entry) : bool :=
  match ce_downloaded_at entry with
  | Some (String _ _ as dl_time_str) =>
      match fromisoformat dl_time_str with
      | Some (Naive dl_time) => dl_time <? cutoff
      | _ => false
      end
  | _ => false
  end.

(** An entry whose file the operating system does not unlink. *)
Definition stuck (refuses : string -> option string) (entry : cache_entry)
  : bool :=
  match ce_file entry with
  | Some p =>
      negb (String.eqb p "")
      && match refuses p with Some _ => true | None => false end
  | None => false
  end.

(** An entry that one pass of the cleanup takes out. *)
Definition evicted (fromisoformat : string -> option datetime)
    (refuses : string -> option string) (cutoff : Z) (entry : cache_entry)
  : bool :=
  expired fromisoformat cutoff entry && negb (stuck refuses entry).

(** The disk without the file of an entry. *)
Definition without_file (file_path : option string) (fs : filesystem)
  : filesystem :=
  match file_path with
  | Some p => if String.eqb p "" then fs else delete p fs
  | None => fs
  end.

(** An operating system that unlinks every file, and one that does not
    unlink the file at [p]. *)
Definition refuses_nothing : string -> option string := fun _ => None.

Definition refuses_at (p msg : string) : string -> option string :=
  fun q => if String.eqb q p then Some msg else None.


End Notions.

(** * Properties *)

(** ** Strings *)

Module PyStrFacts.
Import PyStr PyStrSpec.

Lemma is_digit_facts c :
  is_digit c = true ->
  is_space c = false /\ Ascii.eqb c "-" = false /\ Ascii.eqb c "+" = false
  /\ Ascii.eqb c "b" = false /\ exists d, digit_val c = Some d /\ 0 <= d <= 9.
Proof.
  destruct c as [[] [] [] [] [] [] [] []]; vm_compute; intros H;
    try discriminate H; repeat split; eexists; repeat split; discriminate.
Qed.

Lemma all_digits_free_of s x :
  is_digit x = false -> all_digits s = true -> free_of x s = true.
Proof.
  intros Hx. induction s as [|c r IH]; simpl; [done|].
  intros [Hc Hr]%andb_prop. rewrite IH by done. rewrite andb_true_r.
  destruct (Ascii.eqb_spec c x) as [->|]; [congruence|done].
Qed.

Lemma free_of_app x s t :
  free_of x (s +:+ t) = free_of x s && free_of x t.
Proof. induction s as [|c r IH]; simpl; [done|]. by rewrite IH, andb_assoc. Qed.

(** [replace] leaves a string alone in which the first character of
    [old] does not occur. *)
Lemma replace_free_of o old new s :
  free_of o s = true -> replace (String o old) new s = s.
Proof.
  unfold replace. induction s as [|c r IH]; [done|].
  intros [Hc Hr]%andb_prop. cbn [replace_go String.prefix].
  destruct (ascii_dec o c) as [->|_].
  - by rewrite Ascii.eqb_refl in Hc.
  - by rewrite IH.
Qed.

Lemma replace_bytes_prefix s :
  free_of "b" s = true -> replace "bytes=" "" ("bytes=" +:+ s) = s.
Proof.
  intros H. unfold replace.
  change ("bytes=" +:+ s)
    with (String "b" (String "y" (String "t" (String "e"
            (String "s" (String "=" s)))))).
  cbn -[free_of]. destruct s as [|c r]; [done|].
  by apply (replace_free_of "b" "ytes=").
Qed.

Lemma split_free_of sep s : free_of sep s = true -> split sep s = [s].
Proof.
  induction s as [|c r IH]; [done|]. intros [Hc Hr]%andb_prop. simpl.
  apply negb_true_iff in Hc. by rewrite Hc, IH.
Qed.

Lemma split_app sep s t :
  free_of sep s = true ->
  split sep (s +:+ String sep t) = s :: split sep t.
Proof.
  induction s as [|c r IH]; simpl.
  - by rewrite Ascii.eqb_refl.
  - intros [Hc Hr]%andb_prop. apply negb_true_iff in Hc.
    by rewrite Hc, IH.
Qed.

(** The fields of [split] do not contain the separator. *)
Lemma split_fields_free sep s :
  Forall (fun f => free_of sep f = true) (split sep s).
Proof.
  induction s as [|c r IH]; simpl; [by repeat constructor|].
  destruct (Ascii.eqb c sep) eqn:Hc; [by constructor|].
  destruct (split sep r) as [|h t]; [by repeat constructor; simpl; rewrite Hc|].
  inversion_clear IH. constructor; [|done]. simpl. by rewrite Hc.
Qed.

Lemma lstrip_digits c r : is_digit c = true -> lstrip (String c r) = String c r.
Proof. intros [H _]%is_digit_facts. simpl. by rewrite H. Qed.

Lemma rstrip_digits s : all_digits s = true -> rstrip s = s.
Proof.
  induction s as [|c r IH]; [done|]. intros [Hc Hr]%andb_prop. simpl.
  rewrite IH by done. destruct r; [|done].
  apply is_digit_facts in Hc as [-> _]. done.
Qed.

Lemma int_digits_all_digits acc s :
  all_digits s = true -> int_digits acc true s = Some (decimal_from acc s).
Proof.
  revert acc. induction s as [|c r IH]; intros acc; [done|].
  intros [Hc Hr]%andb_prop. simpl.
  apply is_digit_facts in Hc as (_ & _ & _ & _ & d & -> & _). simpl.
  by apply IH.
Qed.

Lemma count_digits_all_digits s :
  all_digits s = true -> count_digits s = Z.of_nat (String.length s).
Proof.
  induction s as [|c r IH]; [done|]. intros [Hc Hr]%andb_prop.
  cbn [count_digits String.length].
  apply is_digit_facts in Hc as (_ & _ & _ & _ & d & -> & _).
  rewrite IH by done. lia.
Qed.

(** [int] reads a non-empty string of at most [max_str_digits] digits as
    the number it writes. *)
Lemma to_int_digits s :
  s <> EmptyString -> all_digits s = true ->
  Z.of_nat (String.length s) <= max_str_digits ->
  to_int s = Some (decimal s).
Proof.
  destruct s as [|c r]; [done|]. intros _ H Hlen. unfold to_int, strip.
  pose proof H as [Hc Hr]%andb_prop.
  rewrite lstrip_digits, rstrip_digits by done.
  rewrite count_digits_all_digits by done.
  destruct (Z.ltb_spec max_str_digits (Z.of_nat (String.length (String c r))))
    as [|_]; [lia|].
  pose proof (is_digit_facts c Hc) as (_ & Hm & Hp & _ & d & Hd & _).
  assert (int_digits 0 false (String c r) = Some (decimal (String c r))) as E.
  { unfold decimal. simpl. rewrite Hd. simpl. by apply int_digits_all_digits. }
  destruct (Ascii.eqb_spec c "+") as [->|]; [done|].
  destruct (Ascii.eqb_spec c "-") as [->|]; [done|].
  rewrite <- E.
  destruct c as [[] [] [] [] [] [] [] []]; try reflexivity; congruence.
Qed.

Lemma digit_val_range c d : digit_val c = Some d -> 0 <= d <= 9.
Proof.
  unfold digit_val. destruct (_ && _)%bool eqn:E; [|done].
  intros [= <-]. apply andb_prop in E as [E1 E2].
  apply N.leb_le in E1, E2. lia.
Qed.

(** The number [int] reads is below the power of ten of its digits. *)
Lemma int_digits_bound acc prev s n :
  0 <= acc -> int_digits acc prev s = Some n ->
  0 <= n < (acc + 1) * 10 ^ count_digits s.
Proof.
  revert acc prev. induction s as [|c r IH]; intros acc prev Hacc;
    cbn [int_digits count_digits].
  - destruct prev; [|done]. intros [= <-]. lia.
  - assert (0 <= count_digits r) as Hk
      by (clear; induction r as [|c r IH]; cbn [count_digits];
          [lia|destruct (digit_val c); lia]).
    destruct (digit_val c) as [d|] eqn:Hd.
    + apply digit_val_range in Hd. intros E.
      apply IH in E; [|lia]. rewrite Z.pow_add_r by lia.
      change (10 ^ 1) with 10. nia.
    + destruct (_ && _)%bool; [|done]. intros E. by apply IH in E.
Qed.

Lemma count_digits_nonneg s : 0 <= count_digits s.
Proof.
  induction s as [|c r IH]; cbn [count_digits]; [lia|].
  destruct (digit_val c); lia.
Qed.

Lemma count_digits_tail c r : count_digits r <= count_digits (String c r).
Proof. cbn [count_digits]. destruct (digit_val c); lia. Qed.

(** [int] gives numbers that [str] can write. *)
Lemma to_int_bound s n :
  to_int s = Some n -> Z.abs n < 10 ^ max_str_digits.
Proof.
  unfold to_int.
  destruct (Z.ltb_spec max_str_digits (count_digits (strip s))) as [|Hk];
    [done|].
  assert (forall t m, count_digits t <= max_str_digits ->
            int_digits 0 false t = Some m ->
            0 <= m < 10 ^ max_str_digits) as Hgo.
  { intros t m Ht E. apply int_digits_bound in E; [|done].
    pose proof (count_digits_nonneg t).
    pose proof (Z.pow_le_mono_r 10 (count_digits t) max_str_digits).
    lia. }
  destruct (strip s) as [|c r] eqn:Hs; [done|].
  pose proof (count_digits_tail c r) as Htail.
  assert (forall o : option Z,
    o = Some n ->
    (o = int_digits 0 false r \/ o = Z.opp <$> int_digits 0 false r
     \/ o = int_digits 0 false (String c r)) ->
    Z.abs n < 10 ^ max_str_digits) as Hcases.
  { intros o -> [E|[E|E]]; symmetry in E.
    - apply Hgo in E; lia.
    - destruct (int_digits 0 false r) as [m|] eqn:Em; [|done].
      injection E as <-. apply Hgo in Em; lia.
    - apply Hgo in E; lia. }
  destruct c as [[] [] [] [] [] [] [] []];
    intros E; apply (Hcases _ E); auto.
Qed.

Lemma str_int_small n :
  Z.abs n < 10 ^ max_str_digits -> str_int n = Some (of_int n).
Proof.
  intros H. unfold str_int.
  by destruct (Z.ltb_spec (Z.abs n) (10 ^ max_str_digits)) as [_|]; [|lia].
Qed.

Lemma str_int_large n :
  10 ^ max_str_digits <= Z.abs n -> str_int n = None.
Proof.
  intros H. unfold str_int.
  by destruct (Z.ltb_spec (Z.abs n) (10 ^ max_str_digits)) as [|_]; [lia|].
Qed.

(** Without a minus sign [int] gives no negative number. *)
Lemma int_digits_nonneg acc prev s n :
  0 <= acc -> int_digits acc prev s = Some n -> 0 <= n.
Proof.
  revert acc prev. induction s as [|c r IH]; intros acc prev Hacc; simpl.
  - destruct prev; [|done]. by intros [= <-].
  - destruct (digit_val c) as [d|] eqn:Hd.
    + apply IH. unfold digit_val in Hd.
      destruct (_ && _)%bool eqn:E in Hd; [|done].
      injection Hd as <-. apply andb_prop in E as [E _].
      apply N.leb_le in E. lia.
    + destruct (_ && _)%bool; [by apply IH|done].
Qed.

Lemma lstrip_free_of x s : free_of x s = true -> free_of x (lstrip s) = true.
Proof.
  induction s as [|c r IH]; [done|]. simpl. intros H.
  destruct (is_space c); [|done]. apply IH. by apply andb_prop in H as [_ ?].
Qed.

Lemma rstrip_free_of x s : free_of x s = true -> free_of x (rstrip s) = true.
Proof.
  induction s as [|c r IH]; [done|]. simpl. intros [Hc Hr]%andb_prop.
  specialize (IH Hr). destruct (rstrip r).
  - destruct (is_space c); [done|]. simpl. by rewrite Hc.
  - simpl in *. by rewrite Hc, IH.
Qed.

Lemma to_int_nonneg s n :
  free_of "-" s = true -> to_int s = Some n -> 0 <= n.
Proof.
  intros Hs. unfold to_int.
  destruct (max_str_digits <? count_digits (strip s)); [done|].
  assert (free_of "-" (strip s) = true) as Hf
    by (by apply rstrip_free_of, lstrip_free_of).
  destruct (strip s) as [|c r]; [done|].
  destruct (Ascii.eqb_spec c "-") as [->|Hne]; [done|].
  assert (forall o : option Z,
    o = Some n -> (o = int_digits 0 false r \/ o = int_digits 0 false (String c r))
    -> 0 <= n) as Hgo.
  { intros o -> [E|E]; symmetry in E; by eapply int_digits_nonneg in E. }
  destruct c as [[] [] [] [] [] [] [] []];
    try (intros E; apply (Hgo _ E); auto); congruence.
Qed.

Lemma decimal_from_nonneg acc s : 0 <= acc -> 0 <= decimal_from acc s.
Proof.
  revert acc. induction s as [|c r IH]; intros acc Hacc; simpl; [done|].
  apply IH. unfold digit_val. destruct (_ && _)%bool eqn:E; simpl; [|lia].
  apply andb_prop in E as [E _]. apply N.leb_le in E. lia.
Qed.

Lemma decimal_nonneg s : 0 <= decimal s.
Proof. by apply decimal_from_nonneg. Qed.

(** A string of [k] digits writes a number below [10 ^ k]. *)
Lemma decimal_bound s :
  all_digits s = true ->
  Z.of_nat (String.length s) <= max_str_digits ->
  0 <= decimal s < 10 ^ max_str_digits.
Proof.
  intros Hd Hlen. destruct s as [|c r].
  - split; [done|]. by apply Z.pow_pos_nonneg.
  - assert (to_int (String c r) = Some (decimal (String c r))) as E
      by (by apply to_int_digits).
    apply to_int_bound in E. pose proof (decimal_nonneg (String c r)). lia.
Qed.

End PyStrFacts.

(** ** The range server *)

Section StreamAudio.
Import PyStr PyStrSpec PyStrFacts.

(** The loop hands over, chunk after chunk, the first [remaining] bytes of
    what is left of the file, and [Z.to_nat remaining] rounds are enough for
    it to come to its end. *)
Lemma generate_loop_concat fuel rest remaining :
  (Z.to_nat remaining <= fuel)%nat ->
  concat (generate_loop fuel rest remaining) = take (Z.to_nat remaining) rest.
Proof.
  revert rest remaining.
  induction fuel as [|k IH]; intros rest remaining Hfuel; simpl.
  - by replace (Z.to_nat remaining) with 0%nat by lia.
  - destruct (Z.ltb_spec 0 remaining) as [Hpos|Hneg];
      [|by replace (Z.to_nat remaining) with 0%nat by lia].
    set (c := Z.to_nat (Z.min 8192 remaining)).
    assert (0 < c <= Z.to_nat remaining)%nat as Hc by lia.
    destruct (take c rest) as [|b data] eqn:Hdata.
    + destruct rest; [by rewrite take_nil|].
      destruct c; [lia|done].
    + rewrite <- Hdata. simpl.
      pose proof (length_take rest c) as Hlen.
      assert (0 < length (take c rest))%nat by (rewrite Hdata; simpl; lia).
      rewrite IH by lia.
      replace (Z.to_nat (remaining - Z.of_nat (length (take c rest))))
        with (Z.to_nat remaining - length (take c rest))%nat by lia.
      destruct (decide (c <= length rest)%nat) as [Hle|Hgt].
      * rewrite Hlen, Nat.min_l by done. rewrite take_take_drop.
        f_equal. lia.
      * rewrite (take_ge rest c) by lia. rewrite drop_all, take_nil.
        rewrite app_nil_r. symmetry. apply take_ge. lia.
Qed.

(** No chunk is empty or longer than the buffer of 8192 bytes. *)
Lemma generate_loop_chunks fuel rest remaining :
  Forall (fun chunk => 0 < Z.of_nat (length chunk) <= 8192)
    (generate_loop fuel rest remaining).
Proof.
  revert rest remaining. induction fuel as [|k IH]; intros rest remaining;
    simpl; [constructor|].
  destruct (0 <? remaining); [|constructor].
  destruct (take _ rest) as [|b data] eqn:Hdata; [constructor|].
  constructor; [|apply IH].
  pose proof (length_take rest (Z.to_nat (8192 `min` remaining))) as Hlen.
  rewrite Hdata in Hlen. simpl in *. lia.
Qed.

(** Once [seek] has succeeded the generator yields the bytes
    [start..end] that the file has. *)
Lemma generate_seekable max_offset content start len :
  seekable max_offset start = true ->
  exists chunks,
    generate max_offset content start len = Some chunks
    /\ concat chunks = take (Z.to_nat len) (drop (Z.to_nat start) content)
    /\ Forall (fun chunk => 0 < Z.of_nat (length chunk) <= 8192) chunks.
Proof.
  intros Hseek. unfold generate. rewrite Hseek. eexists. split; [done|].
  split; [by apply generate_loop_concat|apply generate_loop_chunks].
Qed.

Lemma seekable_spec max_offset start :
  seekable max_offset start = true
  <-> 0 <= start <= Z.of_N max_offset /\ start < 2 ^ 63.
Proof.
  unfold seekable. rewrite !andb_true_iff, !Z.leb_le, Z.ltb_lt. tauto.
Qed.

Lemma parse_range_form s e file_size :
  s <> "" -> all_digits s = true -> all_digits e = true ->
  Z.of_nat (String.length s) <= max_str_digits ->
  Z.of_nat (String.length e) <= max_str_digits ->
  parse_range ("bytes=" +:+ s +:+ "-" +:+ e) file_size
  = Some (decimal s, if String.eqb e "" then file_size - 1 else decimal e).
Proof.
  intros Hs Hds Hde Hls Hle. unfold parse_range, range_fields.
  rewrite replace_bytes_prefix.
  2:{ rewrite free_of_app. simpl.
      by rewrite !(all_digits_free_of _ "b"). }
  change ("-" +:+ e) with (String "-" e).
  rewrite split_app by (by apply all_digits_free_of).
  rewrite split_free_of by (by apply all_digits_free_of).
  destruct (String.eqb_spec s "") as [|_]; [done|].
  rewrite (to_int_digits s) by done. simpl.
  destruct (String.eqb_spec e "") as [->|He]; [reflexivity|].
  by rewrite (to_int_digits e).
Qed.

Lemma parse_range_start_nonneg h file_size start end_ :
  parse_range h file_size = Some (start, end_) -> 0 <= start.
Proof.
  unfold parse_range, range_fields.
  pose proof (split_fields_free "-" (replace "bytes=" "" h)) as Hfree.
  destruct (split _ _) as [|f0 rest]; [done|].
  inversion_clear Hfree as [|? ? Hf0 _].
  destruct (String.eqb f0 "").
  - simpl. destruct rest; [done|].
    destruct (if String.eqb _ _ then _ else _); [|done]. simpl.
    by intros [= <- _].
  - destruct (to_int f0) as [n|] eqn:E; [|done]. simpl.
    destruct rest; [done|].
    destruct (if String.eqb _ _ then _ else _); [|done]. simpl.
    intros [= <- _]. by eapply to_int_nonneg.
Qed.

Lemma parse_range_readable h file_size :
  if range_readable h then is_Some (parse_range h file_size)
  else parse_range h file_size = None.
Proof.
  unfold range_readable, parse_range, int_field.
  destruct (range_fields h) as [|f0 [|f1 rest]].
  - done.
  - by destruct (if String.eqb f0 "" then _ else _).
  - destruct (String.eqb f0 ""), (String.eqb f1 ""); simpl;
      repeat (destruct (to_int _); simpl); done.
Qed.

(** The answer of the [try] block when the three numbers can be
    written. *)
Lemma partial_response_written max_offset content N start end_ :
  Z.abs start < 10 ^ max_str_digits ->
  Z.abs end_ < 10 ^ max_str_digits ->
  Z.abs (end_ - start + 1) < 10 ^ max_str_digits ->
  exists r,
    partial_response max_offset content N start end_ = Some r
    /\ response_status r = 206
    /\ header "Content-Range" r
       = Some ("bytes " +:+ of_int start +:+ "-" +:+ of_int end_
                 +:+ "/" +:+ of_int N)
    /\ header "Accept-Ranges" r = Some "bytes"
    /\ header "Content-Length" r = Some (of_int (end_ - start + 1))
    /\ (seekable max_offset start = true ->
        exists chunks,
          r = FileResponse 206 "audio/mpeg" (response_headers r) chunks
          /\ concat chunks = byte_span content start end_
          /\ Forall (fun chunk => 0 < Z.of_nat (length chunk) <= 8192) chunks)
    /\ (seekable max_offset start = false ->
        r = StreamFailure 206 "audio/mpeg" (response_headers r)).
Proof.
  intros Hs He Hl. unfold partial_response.
  rewrite !str_int_small by done. cbn [mbind option_bind].
  destruct (seekable max_offset start) eqn:Hseek.
  - destruct (generate_seekable max_offset content start (end_ - start + 1)
                Hseek) as (chunks & -> & Hbody & Hchunks).
    eexists. split; [reflexivity|]. split_and!; try done.
    intros _. by exists chunks.
  - unfold generate. rewrite Hseek.
    eexists. split; [reflexivity|]. by split_and!.
Qed.

(** Every answer of the fallback that carries bytes takes them from the
    file. *)
Lemma send_file_response_bytes content N range_header st mt hs chunks :
  send_file_response content N range_header = FileResponse st mt hs chunks ->
  exists i n, concat chunks = take n (drop i content).
Proof.
  unfold send_file_response, full_response.
  destruct (Werkzeug.process_range_request _ _) as [[]|[[start stop]|]].
  - done.
  - intros [= <- <- <- <-]. eexists _, _. simpl. by rewrite app_nil_r.
  - intros [= <- <- <- <-]. exists 0%nat, (length content). simpl.
    by rewrite app_nil_r, take_ge.
Qed.

Lemma range_response_bytes max_offset content N h st mt hs chunks :
  range_response max_offset content N h = Some (FileResponse st mt hs chunks) ->
  exists i n, concat chunks = take n (drop i content).
Proof.
  unfold range_response, partial_response.
  destruct (parse_range h N) as [[start end_]|]; [|done]. cbn [mbind option_bind].
  destruct (str_int start); [|done]. destruct (str_int end_); [|done].
  destruct (str_int _); [|done]. cbn [mbind option_bind].
  unfold generate. destruct (seekable max_offset start); [|done].
  intros [= <- <- <- <-]. eexists _, _. by apply generate_loop_concat.
Qed.

(** The fallback never answers a request that has a [Range] header for a
    file that is not empty with the full content. *)
Lemma send_file_response_range content h :
  let N := Z.of_nat (length content) in
  0 < N ->
  let r := send_file_response content N (Some h) in
  r <> full_response content N
  /\ (response_status r = 416 \/ response_status r = 206)
  /\ (Werkzeug.parse_range_header h = None ->
      r = HttpException 416 [("Content-Range", "bytes */" +:+ of_int N)]).
Proof.
  intros N HN r. unfold r, send_file_response, Werkzeug.process_range_request.
  destruct (Z.eqb_spec N 0) as [|_]; [lia|].
  destruct (Werkzeug.parse_range_header h) as [range|]; simpl.
  - destruct (Werkzeug.range_for_length range N) as [[start stop]|];
      split_and!; try done; auto.
  - split_and!; try done; auto.
Qed.

Lemma contains_free_of x s :
  free_of x s = true -> contains (String x "") s = false.
Proof.
  induction s as [|c r IH]; [done|]. intros [Hc Hr]%andb_prop.
  apply negb_true_iff in Hc. apply Ascii.eqb_neq in Hc.
  cbn [contains String.prefix]. rewrite IH by done.
  destruct (ascii_dec x c) as [->|_]; [done|]. by destruct r.
Qed.

Lemma partition_free_of x sep s :
  free_of x s = true -> free_of x (partition sep s).2 = true.
Proof.
  induction s as [|c r IH]; [done|]. intros [Hc Hr]%andb_prop.
  cbn [partition]. destruct (Ascii.eqb c sep); [done|].
  specialize (IH Hr). by destruct (partition sep r).
Qed.

Lemma split_free_of_fields x sep s :
  free_of x s = true -> Forall (fun f => free_of x f = true) (split sep s).
Proof.
  induction s as [|c r IH]; [by repeat constructor|].
  intros [Hc Hr]%andb_prop. specialize (IH Hr). cbn [split].
  destruct (Ascii.eqb c sep); [by constructor|].
  destruct (split sep r) as [|f fs]; [repeat constructor; simpl; by rewrite Hc|].
  inversion_clear IH. constructor; [|done]. simpl. by rewrite Hc.
Qed.

(** Werkzeug reads no range from a header without a dash. *)
Lemma parse_range_header_dashless h :
  free_of "-" h = true -> Werkzeug.parse_range_header h = None.
Proof.
  intros Hfree. unfold Werkzeug.parse_range_header.
  destruct (_ || _)%bool; [done|].
  pose proof (partition_free_of "-" "=" h Hfree) as Hrng.
  destruct (partition "=" h) as [units rng]. simpl in Hrng.
  pose proof (split_free_of_fields "-" "," rng Hrng) as Hitems.
  destruct (split "," rng) as [|item items] eqn:Hsplit.
  { by destruct rng as [|c rng']; simpl in Hsplit;
      [|destruct (Ascii.eqb c ","), (split "," rng')]. }
  inversion_clear Hitems as [|? ? Hitem _].
  cbn [Werkzeug.parse_items]. unfold Werkzeug.parse_item.
  rewrite contains_free_of; [done|].
  by apply rstrip_free_of, lstrip_free_of.
Qed.

(** A header without a dash leaves the view a single field. *)
Lemma range_readable_dashless h :
  free_of "-" h = true -> range_readable h = false.
Proof.
  intros Hfree. unfold range_readable, range_fields.
  assert (free_of "-" (replace "bytes=" "" h) = true) as Hr.
  { clear -Hfree. unfold replace.
    assert (forall k, free_of "-" (replace_go "bytes=" "" k h) = true) as Hgo.
    { induction h as [|c r IH]; intros k; [done|].
      apply andb_prop in Hfree as [Hc Hr]. specialize (IH Hr).
      cbn [replace_go]. destruct k; [|apply IH].
      destruct (String.prefix _ _); [apply IH|].
      simpl. by rewrite Hc, IH. }
    apply Hgo. }
  by rewrite split_free_of.
Qed.

End StreamAudio.

Section StreamAudioClaims.
Import PyStr PyStrSpec PyStrFacts.

Lemma prefix_append a x : String.prefix a (a +:+ x) = true.
Proof.
  induction a as [|c r IH]; simpl; [by destruct x|].
  by destruct (ascii_dec c c).
Qed.

Lemma contains_prefix sub s :
  contains sub s = false -> String.prefix sub s = false.
Proof. destruct s; simpl; by intros [? _]%orb_false_elim. Qed.

(** Below the root: [path_join] puts a name without slash behind the
    root. *)
Lemma path_join_prefix root name :
  contains "/" name = false ->
  String.prefix root (path_join root name) = true.
Proof.
  intros H%contains_prefix. unfold path_join. rewrite H.
  destruct (_ || _)%bool; apply prefix_append.
Qed.

(** The view on a file that is there, under a name that passes the
    guard. *)
Lemma stream_audio_served AUDIO_DIR max_offset fs filename content h :
  contains ".." filename = false ->
  contains "/" filename = false ->
  fs !! path_join AUDIO_DIR filename = Some content ->
  let N := Z.of_nat (length content) in
  stream_audio AUDIO_DIR max_offset fs (Some h) filename
  = match h with
    | EmptyString => send_file_response content N (Some h)
    | _ => match range_response max_offset content N h with
           | Some r => r
           | None => send_file_response content N (Some h)
           end
    end.
Proof.
  intros Hdots Hslash Hfile N. unfold stream_audio.
  rewrite Hdots, Hslash, Hfile. simpl. by destruct h.
Qed.

(** The view on a header [bytes=<s>-<e>] of two decimal numbers. *)
Lemma stream_audio_form AUDIO_DIR max_offset fs filename content s e :
  contains ".." filename = false ->
  contains "/" filename = false ->
  fs !! path_join AUDIO_DIR filename = Some content ->
  s <> "" -> all_digits s = true -> all_digits e = true ->
  Z.of_nat (String.length s) <= max_str_digits ->
  Z.of_nat (String.length e) <= max_str_digits ->
  let N := Z.of_nat (length content) in
  let start := decimal s in
  let end_ := if String.eqb e "" then N - 1 else decimal e in
  Z.abs end_ < 10 ^ max_str_digits ->
  Z.abs (end_ - start + 1) < 10 ^ max_str_digits ->
  partial_response max_offset content N start end_
  = Some (stream_audio AUDIO_DIR max_offset fs
            (Some ("bytes=" +:+ s +:+ "-" +:+ e)) filename).
Proof.
  intros Hdots Hslash Hfile Hs Hds Hde Hls Hle N start end_ Hend Hlen.
  rewrite (stream_audio_served _ _ _ _ content) by done.
  change ("bytes=" +:+ s +:+ "-" +:+ e)
    with (String "b" ("ytes=" +:+ s +:+ "-" +:+ e)). cbv iota.
  change (String "b" ("ytes=" +:+ s +:+ "-" +:+ e))
    with ("bytes=" +:+ s +:+ "-" +:+ e).
  unfold range_response. rewrite parse_range_form by done.
  cbn [mbind option_bind]. fold N start end_.
  pose proof (decimal_bound s Hds Hls) as Hstart. fold start in Hstart.
  destruct (partial_response_written max_offset content N start end_)
    as (r & -> & _); [lia|done|done|done].
Qed.

(** C5. A file name with [..] or a slash in it is answered 403 whatever
    the disk holds and whatever range is asked for: no path is built and no
    file is looked at.  Every answer that carries bytes of a file takes them
    from the file at [AUDIO_DIR] joined with the name, a path that starts
    with [AUDIO_DIR] and goes on with a single name free of slashes and of
    [..]. *)
Theorem stream_audio_traversal_forbidden
    AUDIO_DIR max_offset filename fs range_header :
  (contains ".." filename = true \/ contains "/" filename = true ->
   forall fs' range_header',
     stream_audio AUDIO_DIR max_offset fs' range_header' filename
     = TextResponse "Forbidden" 403)
  /\ (forall st mimetype hs chunks,
        stream_audio AUDIO_DIR max_offset fs range_header filename
        = FileResponse st mimetype hs chunks ->
        contains ".." filename = false /\ contains "/" filename = false
        /\ String.prefix AUDIO_DIR (path_join AUDIO_DIR filename) = true
        /\ exists content i n,
             fs !! path_join AUDIO_DIR filename = Some content
             /\ concat chunks = take n (drop i content)).
Proof.
  split.
  - intros H fs' rh'. unfold stream_audio.
    by destruct H as [-> | ->]; rewrite ?orb_true_r.
  - intros st mt hs chunks. unfold stream_audio.
    destruct (contains ".." filename) eqn:Hdots; [done|].
    destruct (contains "/" filename) eqn:Hslash; [done|]. simpl.
    destruct (fs !! path_join AUDIO_DIR filename) as [content|] eqn:Hfile;
      [|done].
    intros Hresp. repeat split; [by apply path_join_prefix|].
    exists content.
    assert (forall rh,
      send_file_response content (Z.of_nat (length content)) rh
      = FileResponse st mt hs chunks ->
      exists i n, Some content = Some content
                  /\ concat chunks = take n (drop i content)) as Hfull.
    { intros rh (i & n & ?)%send_file_response_bytes. by exists i, n. }
    destruct range_header as [[|c h]|]; [by apply (Hfull (Some ""))| |
                                         by apply (Hfull None)].
    destruct (range_response _ _ _ _) as [r|] eqn:Hrange;
      [|by apply (Hfull (Some (String c h)))].
    subst r. apply range_response_bytes in Hrange as (i & n & ?).
    by exists i, n.
Qed.

Lemma stream_audio_traversal_forbidden_witness :
  stream_audio "/srv/audio" (2 ^ 40) (sample_disk 4) None "../a.mp3"
  = TextResponse "Forbidden" 403
  /\ stream_audio "/srv/audio" (2 ^ 40) {[ "/etc/passwd" := sample_file 4 ]}
       (Some "bytes=0-1") "/etc/passwd"
     = TextResponse "Forbidden" 403.
Proof.
  split.
  - apply (stream_audio_traversal_forbidden "/srv/audio" (2 ^ 40) "../a.mp3"
             ∅ None).
    left. reflexivity.
  - apply (stream_audio_traversal_forbidden "/srv/audio" (2 ^ 40)
             "/etc/passwd" ∅ None).
    right. reflexivity.
Defined.

(** C10, as the code has it.  For a header [bytes=<start>-<end>] of two
    decimal numbers of at most 4300 digits whose end is not below the size
    [N] of the file, and whose [Content-Length] [end - start + 1] can be
    written with at most 4300 digits, the answer is 206 and its
    [Content-Range] and [Content-Length] are written from the numbers of
    the header.  When [start] is an offset the file can be positioned at,
    the body is what the file has from [start] on: [max 0 (N - start)]
    bytes, never more than [end - start + 1], in chunks of at most 8192
    bytes.  When it is not, the generator raises in [seek] before it
    yields a chunk. *)
Theorem stream_audio_range_past_end
    AUDIO_DIR max_offset fs filename content s e :
  contains ".." filename = false ->
  contains "/" filename = false ->
  fs !! path_join AUDIO_DIR filename = Some content ->
  s <> "" -> e <> "" ->
  all_digits s = true -> all_digits e = true ->
  Z.of_nat (String.length s) <= max_str_digits ->
  Z.of_nat (String.length e) <= max_str_digits ->
  let N := Z.of_nat (length content) in
  let start := decimal s in
  let end_ := decimal e in
  N <= end_ ->
  end_ - start + 1 < 10 ^ max_str_digits ->
  let r := stream_audio AUDIO_DIR max_offset fs
             (Some ("bytes=" +:+ s +:+ "-" +:+ e)) filename in
  response_status r = 206
  /\ header "Content-Range" r
     = Some ("bytes " +:+ of_int start +:+ "-" +:+ of_int end_
               +:+ "/" +:+ of_int N)
  /\ header "Content-Length" r = Some (of_int (end_ - start + 1))
  /\ (start <= Z.of_N max_offset -> start < 2 ^ 63 ->
      response_body r = drop (Z.to_nat start) content
      /\ Z.of_nat (length (response_body r)) = Z.max 0 (N - start)
      /\ Z.of_nat (length (response_body r)) <= Z.max 0 (end_ - start + 1)
      /\ exists chunks,
           r = FileResponse 206 "audio/mpeg" (response_headers r) chunks
           /\ Forall (fun chunk => 0 < Z.of_nat (length chunk) <= 8192)
                chunks)
  /\ (Z.of_N max_offset < start \/ 2 ^ 63 <= start ->
      r = StreamFailure 206 "audio/mpeg" (response_headers r)).
Proof.
  intros Hdots Hslash Hfile Hs He Hds Hde Hls Hle N start end_ Hend Hlen r.
  pose proof (decimal_bound s Hds Hls) as Hstart. fold start in Hstart.
  pose proof (decimal_bound e Hde Hle) as Hend'. fold end_ in Hend'.
  assert (partial_response max_offset content N start end_ = Some r) as Hr.
  { pose proof (stream_audio_form AUDIO_DIR max_offset fs filename content
                  s e Hdots Hslash Hfile Hs Hds Hde Hls Hle) as Hform.
    cbv zeta in Hform. destruct (String.eqb_spec e "") as [|_]; [done|].
    apply Hform; fold start end_; lia. }
  destruct (partial_response_written max_offset content N start end_)
    as (r' & Hr' & Hst & Hcr & _ & Hcl & Hok & Hfail); [lia..|].
  rewrite Hr in Hr'. injection Hr' as <-.
  split_and!; [done|done|done| |].
  - intros Hmax Hoff.
    destruct Hok as (chunks & Hchunks & Hbody & Hsizes);
      [apply seekable_spec; lia|].
    assert (response_body r = drop (Z.to_nat start) content) as Hdrop.
    { rewrite Hchunks. simpl. rewrite Hbody. unfold byte_span.
      apply take_ge. rewrite length_drop. unfold N in *. lia. }
    split_and!; [done| | |by exists chunks].
    + rewrite Hdrop, length_drop. unfold N. lia.
    + rewrite Hdrop, length_drop. unfold N in *. lia.
  - intros Hout. apply Hfail.
    destruct (seekable max_offset start) eqn:Hseek; [|done].
    apply seekable_spec in Hseek. lia.
Qed.

Lemma stream_audio_range_past_end_witness :
  let r := stream_audio "/srv/audio" (2 ^ 40) (sample_disk 1000)
             (Some "bytes=0-9999") "a.mp3" in
  response_status r = 206
  /\ header "Content-Range" r = Some "bytes 0-9999/1000"
  /\ header "Content-Length" r = Some "10000"
  /\ Z.of_nat (length (response_body r)) = 1000.
Proof.
  assert ("0" <> "" /\ "9999" <> "") as [Hs He] by (split; discriminate).
  assert (Z.of_nat (String.length "0") <= max_str_digits
          /\ Z.of_nat (String.length "9999") <= max_str_digits) as [Hls Hle]
    by (split; vm_compute; discriminate).
  assert (Z.of_nat (length (sample_file 1000)) <= decimal "9999") as Hend
    by (vm_compute; discriminate).
  assert (decimal "9999" - decimal "0" + 1 < 10 ^ max_str_digits) as Hlen
    by (vm_compute; reflexivity).
  pose proof (stream_audio_range_past_end "/srv/audio" (2 ^ 40)
                (sample_disk 1000) "a.mp3" (sample_file 1000) "0" "9999"
                eq_refl eq_refl eq_refl Hs He eq_refl eq_refl Hls Hle
                Hend Hlen)
    as (H1 & H2 & H3 & H4 & _).
  assert (decimal "0" <= Z.of_N (2 ^ 40)) as Hmax by (vm_compute; discriminate).
  assert (decimal "0" < 2 ^ 63) as Hoff by (vm_compute; reflexivity).
  destruct (H4 Hmax Hoff) as (_ & H5 & _).
  exact (conj H1 (conj H2 (conj H3 H5))).
Defined.

(** C10 as the specification words it fails: the two numbers of
    [bytes=9223372036854775808-9223372036854775809] are read and the end
    is not below the size of the file, but no file can be positioned at
    [2 ^ 63]: the answer is 206 with a body whose generator raises in
    [seek] instead of stopping at the end of the file. *)
Lemma stream_audio_range_past_end_counterexample :
  let h := "bytes=9223372036854775808-9223372036854775809" in
  let r := stream_audio "/srv/audio" (2 ^ 63 - 1) (sample_disk 1000)
             (Some h) "a.mp3" in
  parse_range h 1000 = Some (9223372036854775808, 9223372036854775809)
  /\ 1000 <= 9223372036854775809
  /\ response_status r = 206
  /\ header "Content-Range" r
     = Some "bytes 9223372036854775808-9223372036854775809/1000"
  /\ r = StreamFailure 206 "audio/mpeg" (response_headers r)
  /\ forall chunks, r <> FileResponse 206 "audio/mpeg" (response_headers r)
                           chunks.
Proof. vm_compute. split_and!; try done. Qed.

(** C4, where the code departs from it.  For a file of [N] bytes under
    the audio directory: a header [bytes=<start>-<end>] of decimal numbers
    (the end optional and then [N - 1]) whose start the file can be
    positioned at is answered 206 with [Content-Range: bytes start-end/N],
    [Content-Length] [end - start + 1] and the bytes [start..end] of the
    file as body; without a header the answer is the full content: status
    200, the [N] bytes, [Accept-Ranges: bytes] and [Content-Length] [N].
    But a header from which the view cannot read two numbers is not
    answered with the full content when the file is not empty: the view
    leaves its [try] block for [send_file], which reads the header again
    and answers 416 or a 206 of its own, and 416 whenever the header has
    no dash. *)
Theorem stream_audio_range_and_fallback
    AUDIO_DIR max_offset fs filename content :
  contains ".." filename = false ->
  contains "/" filename = false ->
  fs !! path_join AUDIO_DIR filename = Some content ->
  let N := Z.of_nat (length content) in
  (forall s e,
     s <> "" -> all_digits s = true -> all_digits e = true ->
     Z.of_nat (String.length s) <= max_str_digits ->
     Z.of_nat (String.length e) <= max_str_digits ->
     let start := decimal s in
     let end_ := if String.eqb e "" then N - 1 else decimal e in
     start <= Z.of_N max_offset -> start < 2 ^ 63 ->
     N < 2 ^ 63 ->
     end_ - start + 1 < 10 ^ max_str_digits ->
     let r := stream_audio AUDIO_DIR max_offset fs
                (Some ("bytes=" +:+ s +:+ "-" +:+ e)) filename in
     response_status r = 206
     /\ header "Content-Range" r
        = Some ("bytes " +:+ of_int start +:+ "-" +:+ of_int end_
                  +:+ "/" +:+ of_int N)
     /\ header "Content-Length" r = Some (of_int (end_ - start + 1))
     /\ response_body r = byte_span content start end_
     /\ (start <= end_ < N ->
         Z.of_nat (length (response_body r)) = end_ - start + 1))
  /\ (stream_audio AUDIO_DIR max_offset fs None filename
      = full_response content N
      /\ response_status (full_response content N) = 200
      /\ response_body (full_response content N) = content
      /\ header "Accept-Ranges" (full_response content N) = Some "bytes"
      /\ header "Content-Length" (full_response content N) = Some (of_int N))
  /\ (forall h,
        range_readable h = false -> 0 < N ->
        let r := stream_audio AUDIO_DIR max_offset fs (Some h) filename in
        r <> full_response content N
        /\ (response_status r = 416 \/ response_status r = 206)
        /\ (free_of "-" h = true ->
            r = HttpException 416
                  [("Content-Range", "bytes */" +:+ of_int N)])).
Proof.
  intros Hdots Hslash Hfile N. split_and!.
  - intros s e Hs Hds Hde Hls Hle start end_ Hmax Hoff HN Hlen r.
    pose proof (decimal_bound s Hds Hls) as Hstart. fold start in Hstart.
    assert (2 ^ 63 < 10 ^ max_str_digits) as Hbig by (vm_compute; reflexivity).
    assert (-1 <= end_ < 10 ^ max_str_digits) as Hend.
    { unfold end_. destruct (String.eqb_spec e ""); [unfold N in *; lia|].
      pose proof (decimal_bound e Hde Hle). lia. }
    assert (partial_response max_offset content N start end_ = Some r) as Hr.
    { pose proof (stream_audio_form AUDIO_DIR max_offset fs filename content
                    s e Hdots Hslash Hfile Hs Hds Hde Hls Hle) as Hform.
      cbv zeta in Hform. fold N start end_ in Hform. apply Hform; lia. }
    destruct (partial_response_written max_offset content N start end_)
      as (r' & Hr' & Hst & Hcr & _ & Hcl & Hok & _); [lia..|].
    rewrite Hr in Hr'. injection Hr' as <-.
    destruct Hok as (chunks & Hchunks & Hbody & _);
      [apply seekable_spec; lia|].
    assert (response_body r = byte_span content start end_) as Hspan
      by (by rewrite Hchunks).
    split_and!; [done|done|done|done|].
    intros Hrange. rewrite Hspan. unfold byte_span.
    rewrite length_take, length_drop. unfold N in *. lia.
  - unfold stream_audio. by rewrite Hdots, Hslash, Hfile.
  - done.
  - simpl. by rewrite app_nil_r.
  - done.
  - done.
  - intros h Hh HN r.
    assert (r = send_file_response content N (Some h)) as ->.
    { unfold r. rewrite (stream_audio_served _ _ _ _ content) by done.
      fold N. destruct h as [|c h]; [done|].
      unfold range_response.
      pose proof (parse_range_readable (String c h) N) as Hp.
      rewrite Hh in Hp. by rewrite Hp. }
    destruct (send_file_response_range content h HN) as (H1 & H2 & H3).
    split_and!; [done|done|].
    intros Hfree. by apply H3, parse_range_header_dashless.
Qed.

(** The failing input: [Range: bytes=abc] on a file of 1000 bytes. *)
Lemma stream_audio_range_and_fallback_witness :
  stream_audio "/srv/audio" (2 ^ 40) (sample_disk 1000) (Some "bytes=abc")
    "a.mp3"
  = HttpException 416 [("Content-Range", "bytes */1000")].
Proof.
  pose proof (stream_audio_range_and_fallback "/srv/audio" (2 ^ 40)
                (sample_disk 1000) "a.mp3" (sample_file 1000)
                eq_refl eq_refl eq_refl) as (_ & _ & H).
  assert (0 < Z.of_nat (length (sample_file 1000))) as HN
    by (vm_compute; reflexivity).
  destruct (H "bytes=abc" eq_refl HN) as (_ & _ & H3).
  exact (H3 eq_refl).
Defined.

End StreamAudioClaims.

(** ** One run of [_process_job] *)

Section ProcessJob.

Lemma chain_app lo l1 mid l2 hi :
  chain lo l1 mid -> chain mid l2 hi -> chain lo (l1 ++ l2) hi.
Proof.
  revert lo. induction l1 as [|a r IH]; intros lo; simpl.
  - destruct l2; simpl; intros ? ?; [lia|]. split; [lia|tauto].
  - intros [? ?] ?. split; [done|]. by apply IH.
Qed.

Lemma chain_le lo l hi : chain lo l hi -> lo <= hi.
Proof.
  revert lo. induction l as [|a r IH]; intros lo; simpl; [done|].
  intros [? H%IH]. lia.
Qed.

Lemma chain_weaken lo l hi hi' : chain lo l hi -> hi <= hi' -> chain lo l hi'.
Proof.
  revert lo. induction l as [|a r IH]; intros lo; simpl; [lia|].
  intros [? ?] ?. split; [done|]. by apply IH.
Qed.

Lemma chain_snoc lo l hi : chain lo l hi -> chain lo (l ++ [hi]) hi.
Proof.
  intros H. apply (chain_app lo l hi [hi] hi); [done|]. simpl. lia.
Qed.

Lemma chain_sorted lo l hi : chain lo l hi -> Sorted Z.le (lo :: l).
Proof.
  revert lo. induction l as [|a r IH]; intros lo; simpl.
  - by repeat constructor.
  - intros [? ?]. constructor; [by apply IH|by constructor].
Qed.

Lemma to_dict_notify j : to_dict (notify_subscribers j) = to_dict j.
Proof. done. Qed.

(** The hooks never raise; they touch only [progress], [stage] and the
    queues; what they publish shows the job as it was but for these, with
    a progress of at most 75. *)
Lemma run_hooks_spec ds s :
  exists s' published,
    run_hooks ds s = (inr tt, s')
    /\ ws_cache s' = ws_cache s /\ ws_fs s' = ws_fs s
    /\ ws_published s' = ws_published s ++ published
    /\ status (ws_job s') = status (ws_job s)
    /\ error (ws_job s') = error (ws_job s)
    /\ video_id (ws_job s') = video_id (ws_job s)
    /\ title (ws_job s') = title (ws_job s)
    /\ Forall (fun snap => snap_status snap = status (ws_job s)
                           /\ snap_error snap = error (ws_job s)
                           /\ snap_progress snap <= 75) published
    /\ progress (ws_job s') <= Z.max (progress (ws_job s)) 75.
Proof.
  revert s. induction ds as [|d rest IH]; intros s.
  - exists s, []. rewrite app_nil_r. repeat split; [constructor|lia].
  - cbn [run_hooks]. unfold mbind, Py_bind, bind.
    assert (exists s1 pub1,
      progress_hook d s = (inr tt, s1)
      /\ ws_cache s1 = ws_cache s /\ ws_fs s1 = ws_fs s
      /\ ws_published s1 = ws_published s ++ pub1
      /\ status (ws_job s1) = status (ws_job s)
      /\ error (ws_job s1) = error (ws_job s)
      /\ video_id (ws_job s1) = video_id (ws_job s)
      /\ title (ws_job s1) = title (ws_job s)
      /\ Forall (fun snap => snap_status snap = status (ws_job s)
                             /\ snap_error snap = error (ws_job s)
                             /\ snap_progress snap <= 75) pub1
      /\ progress (ws_job s1) <= Z.max (progress (ws_job s)) 75)
      as (s1 & pub1 & -> & Hc & Hf & Hp & Hst & Her & Hv & Ht & Hall & Hpr).
    { unfold progress_hook. destruct (d_status d).
      - destruct (0 <? hook_total d); destruct (d_speed d) as [sp|];
          try destruct (sp =? 0);
          (eexists _, [_]; split; [reflexivity|]; simpl;
           repeat split; try done; try (repeat constructor; simpl; lia); lia).
      - eexists _, [_]. split; [reflexivity|]. simpl.
        repeat split; try done; try (repeat constructor; simpl; lia); lia.
      - exists s, []. rewrite app_nil_r. repeat split; [constructor|lia]. }
    destruct (IH s1)
      as (s' & pub & -> & Hc' & Hf' & Hp' & Hst' & Her' & Hv' & Ht' & Hall' & Hpr').
    exists s', (pub1 ++ pub). split; [done|].
    rewrite Hc', Hf', Hp', Hst', Her', Hv', Ht', Hp, app_assoc.
    repeat split; try done; [|lia].
    apply Forall_app. split; [done|].
    eapply Forall_impl; [exact Hall'|]. simpl. intros snap.
    by rewrite Hst, Her.
Qed.

(** Orderly reports never take the progress down. *)
Lemma run_hooks_orderly total ds : forall last finished s s',
  0 < total -> 0 <= last ->
  orderly_from total last finished ds = true ->
  (if finished then progress (ws_job s) <= 75
   else progress (ws_job s) <= Z.min (hook_pct last total) 70) ->
  run_hooks ds s = (inr tt, s') ->
  exists published,
    ws_published s' = ws_published s ++ published
    /\ chain (progress (ws_job s)) (map snap_progress published)
         (progress (ws_job s'))
    /\ progress (ws_job s') <= 75.
Proof.
  induction ds as [|d rest IH]; intros last finished s s' Htotal Hlast Hord Hcur.
  - intros [= <-]. exists []. rewrite app_nil_r. simpl.
    split; [done|]. split; [lia|]. destruct finished; lia.
  - cbn [run_hooks orderly_from] in *. unfold mbind, Py_bind, bind.
    unfold progress_hook. destruct (d_status d).
    + apply andb_prop in Hord as [[[Hfin Htot%Z.eqb_eq]%andb_prop
        Hle%Z.leb_le]%andb_prop Hrest].
      apply negb_true_iff in Hfin. subst finished.
      rewrite Htot. destruct (Z.ltb_spec 0 total) as [_|]; [|lia].
      set (dl := default 0 (d_downloaded_bytes d)) in *.
      assert (hook_pct last total <= hook_pct dl total) as Hmono.
      { unfold hook_pct. apply Z.add_le_mono_r, Z.quot_le_mono; lia. }
      destruct (d_speed d) as [sp|]; try destruct (sp =? 0); simpl;
        intros Hrun;
        (eapply (IH dl false) in Hrun as (pub & Hpub & Hchain & Hbound);
         [|done|lia|exact Hrest|simpl; lia]);
        simpl in *; (eexists (_ :: pub); split;
          [by rewrite Hpub, <- app_assoc|]);
        (split; [|done]); simpl; (split; [lia|done]).
    + simpl. intros Hrun.
      eapply (IH last true) in Hrun as (pub & Hpub & Hchain & Hbound);
        [|done|exact Hlast|exact Hord|simpl; lia].
      simpl in *. eexists (_ :: pub). split; [by rewrite Hpub, <- app_assoc|].
      split; [|done]. simpl. split; [destruct finished; lia|done].
    + simpl. intros Hrun. by eapply IH in Hrun.
Qed.

(** Looking for the output file touches neither the job nor what has been
    published nor the cache. *)
Lemma find_output_silent AUDIO_DIR w exts output_path s :
  let s' := snd (find_output AUDIO_DIR w exts output_path s) in
  ws_job s' = ws_job s /\ ws_published s' = ws_published s
  /\ ws_cache s' = ws_cache s.
Proof.
  revert s. induction exts as [|ext rest IH]; intros s; [done|].
  cbn [find_output]. unfold mbind, Py_bind, bind, read_fs. simpl.
  destruct (_ && _)%bool; [|apply IH].
  destruct (negb _); [|done].
  unfold ffmpeg, os_remove, mbind, Py_bind, bind, read_fs, write_fs.
  by destruct (run_ffmpeg w) as [msg|[out|]].
Qed.

Lemma path_join_nonempty a b : b <> "" -> PyStr.path_join a b <> "".
Proof.
  intros Hb. unfold PyStr.path_join. destruct (String.prefix "/" b); [done|].
  destruct (_ || _)%bool; destruct a; simpl; try done; by destruct b.
Qed.

Lemma find_output_result AUDIO_DIR w exts output_path s out s' :
  find_output AUDIO_DIR w exts output_path s = (inr out, s') ->
  output_path <> "" -> out <> "".
Proof.
  revert s. induction exts as [|ext rest IH]; intros s.
  - by intros [= <- _].
  - cbn [find_output]. unfold mbind, Py_bind, bind, read_fs. simpl.
    destruct (_ && _)%bool; [|apply IH].
    destruct (negb _).
    + unfold ffmpeg, os_remove, mbind, Py_bind, bind, read_fs, write_fs.
      destruct (run_ffmpeg w) as [msg|[o|]]; simpl; by intros [= <- _].
    + intros [= <- _] _. apply path_join_nonempty. by destruct (run_file_id w).
Qed.

Lemma process_job_run AUDIO_DIR w s0 :
  error (ws_job s0) = None ->
  exists s pre,
    _process_job AUDIO_DIR w s0 = (inr tt, s)
    /\ process_job_result w s0 s pre.
Proof.
  intros Herr. unfold _process_job, try_except, process_job_body.
  unfold extract_info, mbind, Py_bind, bind.
  cbn -[find_output path_exists getsize PyStr.path_join String.append].
  match goal with |- context [run_hooks ?ds ?s] =>
    destruct (run_hooks_spec ds s)
      as (s1 & pub & Hrun & Hc & Hf & Hp & Hst & Her & Hv & Ht & Hall & Hpr);
    rewrite Hrun
  end.
  assert (forall total,
    orderly total (run_reports w) = true ->
    chain 10 (map snap_progress pub) (progress (ws_job s1))) as Hmono.
  { intros total [Htotal%Z.ltb_lt Hord]%andb_prop.
    eapply (run_hooks_orderly total _ 0 false) in Hrun
      as (pub' & Hpub' & Hchain & _); [|done|done|exact Hord|].
    - rewrite Hp in Hpub'. apply app_inv_head in Hpub'. by subst pub'.
    - simpl. unfold hook_pct. rewrite Z.quot_0_l by lia. lia. }
  clear Hrun.
  cbn -[find_output path_exists getsize PyStr.path_join String.append] in *.
  rewrite Herr in *.
  match type of Hp with _ = ((_ ++ [?a]) ++ [?b]) ++ _ =>
    set (snapA := a) in *; set (snapB := b) in *
  end.
  assert (Forall snap_running (snapA :: snapB :: pub)) as Hpre.
  { repeat constructor; simpl; try done; try lia.
    eapply Forall_impl; [exact Hall|]. intros snap (? & ? & ?).
    repeat split; try done. lia. }
  assert (forall hi total,
    orderly total (run_reports w) = true ->
    progress (ws_job s0) <= 5 -> progress (ws_job s1) <= hi ->
    chain (progress (ws_job s0)) (map snap_progress (snapA :: snapB :: pub)) hi)
    as Hchain.
  { intros hi total Hord H0 Hhi. simpl. split; [done|]. split; [lia|].
    eapply chain_weaken; [by eapply Hmono|done]. }
  clear Hmono Hall.
  destruct (run_extract w) as [msg|info];
  cbn -[find_output path_exists getsize PyStr.path_join String.append].
  - eexists _, (snapA :: snapB :: pub). split; [reflexivity|].
    unfold process_job_result. simpl. rewrite Hp, <- !app_assoc.
    split_and!; try done.
    + right. split_and!; [done|lia|by eexists].
    + intros total Hord H0. by eapply Hchain.
  - match goal with |- context [to_dict ?j] =>
      match j with set_stage StageFinalizing _ => set (job85 := j) in * end
    end.
    match goal with |- context [(if ?c then ?f else ?g) ?S] =>
      assert (exists r s2,
        (if c then f else g) S = (r, s2)
        /\ ws_job s2 = ws_job S /\ ws_published s2 = ws_published S
        /\ ws_cache s2 = ws_cache S
        /\ forall out, r = inr out -> out <> "")
        as (r & s2 & -> & Hj2 & Hp2 & Hc2 & Hout)
    end.
    { assert (PyStr.path_join AUDIO_DIR (run_file_id w +:+ ".mp3") <> "")
        as Hne by (apply path_join_nonempty; by destruct (run_file_id w)).
      destruct (negb _).
      - match goal with |- context [find_output ?a ?b ?c ?d ?S] =>
          pose proof (find_output_silent a b c d S) as Hsilent;
          pose proof (find_output_result a b c d S) as Hres;
          destruct (find_output a b c d S) as [r s2]
        end.
        exists r, s2. split_and!; try apply Hsilent; [done|].
        intros out ->. by eapply Hres.
      - eexists _, _. split_and!; try done. by intros out [= <-]. }
    simpl in Hj2, Hp2, Hc2.
    assert (Forall snap_running (snapA :: snapB :: pub ++ [to_dict job85]))
      as Hpre85.
    { rewrite !app_comm_cons. apply Forall_app. split; [done|].
      repeat constructor; simpl; try done. }
    assert (forall total,
      orderly total (run_reports w) = true ->
      progress (ws_job s0) <= 5 ->
      chain (progress (ws_job s0))
        (map snap_progress (snapA :: snapB :: pub ++ [to_dict job85])) 85)
      as Hchain85.
    { intros total Hord H0. rewrite !app_comm_cons, map_app.
      apply (chain_app _ _ 85); [|simpl; lia].
      eapply Hchain; [done|done|lia]. }
    destruct r as [e|out];
      cbn -[path_exists getsize PyStr.path_join String.append].
    { eexists _, (snapA :: snapB :: pub ++ [to_dict job85]).
      split; [reflexivity|].
      unfold process_job_result. simpl. rewrite Hj2, Hp2, Hp, <- !app_assoc.
      split_and!; try done.
      right. split_and!; [done|simpl; lia|by eexists]. }
    specialize (Hout out eq_refl).
    destruct (_ || _)%bool eqn:Hcheck;
      cbn -[path_exists getsize PyStr.path_join String.append].
    { eexists _, (snapA :: snapB :: pub ++ [to_dict job85]).
      split; [reflexivity|].
      unfold process_job_result. simpl. rewrite Hj2, Hp2, Hp, <- !app_assoc.
      split_and!; try done.
      right. split_and!; [done|simpl; lia|by eexists]. }
    unfold save_cache. destruct (run_save_cache w) as [e|];
      cbn -[path_exists getsize PyStr.path_join String.append].
    { eexists _, (snapA :: snapB :: pub ++ [to_dict job85]).
      split; [reflexivity|].
      unfold process_job_result. simpl. rewrite Hj2, Hp2, Hp, <- !app_assoc.
      split_and!; try done.
      right. split_and!; [done|simpl; lia|by eexists]. }
    eexists _, (snapA :: snapB :: pub ++ [to_dict job85]).
    split; [reflexivity|].
    unfold process_job_result. simpl. rewrite Hj2, Hp2, Hp, <- !app_assoc.
    split_and!; try done.
    + left. split_and!; try done. exists out. simpl.
      split_and!; try done.
      * rewrite <- Hv. apply lookup_insert_eq.
      * apply orb_false_elim in Hcheck as [Hex%negb_false_iff Hsz%Z.eqb_neq].
        unfold valid_file. rewrite Hex. simpl.
        destruct (String.eqb_spec out ""); [done|]. simpl.
        apply Z.ltb_lt. unfold getsize in *. destruct (_ !! _); lia.
    + intros total Hord H0.
      pose proof (Hchain85 total Hord H0) as Hch. simpl in Hch |- *.
      destruct Hch as (? & ? & Hch). split_and!; try done.
      eapply chain_weaken; [exact Hch|lia].
Qed.

End ProcessJob.

(** ** Creating jobs and reading the cache *)

Section CreateJob.

Lemma valid_file_intro (fs : filesystem) file_path content :
  file_path <> "" -> fs !! file_path = Some content -> content <> [] ->
  valid_file fs file_path = true.
Proof.
  intros Hne Hfile Hcontent. unfold valid_file, path_exists, getsize.
  rewrite Hfile. destruct (String.eqb_spec file_path ""); [done|].
  rewrite bool_decide_eq_true_2 by by eexists. simpl.
  apply Z.ltb_lt. destruct content; [done|]. simpl. lia.
Qed.

Lemma create_job_hit cache fs m job_id now video_id url title entry file :
  cache !! video_id = Some entry ->
  ce_file entry = Some file ->
  valid_file fs file = true ->
  create_job cache fs job_id now video_id url title m
  = (cached_job job_id now video_id url title entry file,
     {| jobs := <[job_id := cached_job job_id now video_id url title
                              entry file]> (jobs m);
        job_queue := job_queue m |}).
Proof.
  intros Hentry Hfile Hvalid. unfold create_job.
  by rewrite Hentry, Hfile; simpl; rewrite Hvalid.
Qed.

Lemma create_job_miss cache fs m job_id now video_id url title :
  (cache !! video_id = None
   \/ exists entry,
        cache !! video_id = Some entry
        /\ valid_file fs (default "" (ce_file entry)) = false) ->
  create_job cache fs job_id now video_id url title m
  = (new_job job_id video_id url title now,
     {| jobs := <[job_id := new_job job_id video_id url title now]> (jobs m);
        job_queue := job_queue m ++ [job_id] |}).
Proof.
  intros [Hnone | (entry & Hentry & Hinvalid)]; unfold create_job.
  - by rewrite Hnone.
  - by rewrite Hentry, Hinvalid.
Qed.

(** C3. When the cache has an entry for the video id whose file exists and
    is not empty, [create_job] returns a job that is completed, at 100,
    with stream url and metadata taken from the entry, and puts nothing on
    the work queue; a second call does the same, and both jobs point at the
    same file. *)
Theorem create_job_cache_hit
    cache fs m video_id entry file content
    job_id1 now1 url1 title1 job_id2 now2 url2 title2 :
  cache !! video_id = Some entry ->
  ce_file entry = Some file ->
  file <> "" ->
  fs !! file = Some content ->
  content <> [] ->
  let r1 := create_job cache fs job_id1 now1 video_id url1 title1 m in
  let r2 := create_job cache fs job_id2 now2 video_id url2 title2 (snd r1) in
  (status (fst r1) = completed /\ progress (fst r1) = 100
   /\ stream_url (fst r1) = Some ("/stream/" +:+ PyStr.basename file)
   /\ metadata (fst r1) = default [] (ce_metadata entry)
   /\ file_path (fst r1) = Some file
   /\ job_queue (snd r1) = job_queue m)
  /\ (status (fst r2) = completed /\ progress (fst r2) = 100
      /\ job_queue (snd r2) = job_queue m)
  /\ stream_url (fst r2) = stream_url (fst r1)
  /\ file_path (fst r2) = file_path (fst r1)
  /\ metadata (fst r2) = metadata (fst r1).
Proof.
  intros Hentry Hfile Hne Hdisk Hcontent r1 r2.
  pose proof (valid_file_intro fs file content Hne Hdisk Hcontent) as Hvalid.
  unfold r2, r1.
  rewrite (create_job_hit _ _ m _ _ _ _ _ entry file) by done.
  rewrite (create_job_hit _ _ _ _ _ _ _ _ entry file) by done.
  done.
Qed.

Lemma create_job_cache_hit_witness :
  let r1 := create_job sample_cache (sample_disk 4) "job-1" "t1"
              "dQw4w9WgXcQ" "https://youtu.be/dQw4w9WgXcQ" "" empty_manager in
  status (fst r1) = completed /\ progress (fst r1) = 100
  /\ stream_url (fst r1) = Some "/stream/a.mp3"
  /\ job_queue (snd r1) = [].
Proof.
  assert ("/srv/audio/a.mp3" <> "") as Hne by discriminate.
  assert (sample_file 4 <> []) as Hcontent by discriminate.
  pose proof (create_job_cache_hit sample_cache (sample_disk 4) empty_manager
                "dQw4w9WgXcQ" (sample_entry "/srv/audio/a.mp3")
                "/srv/audio/a.mp3" (sample_file 4)
                "job-1" "t1" "https://youtu.be/dQw4w9WgXcQ" ""
                "job-2" "t2" "https://youtu.be/dQw4w9WgXcQ" ""
                eq_refl eq_refl Hne eq_refl Hcontent)
    as [(H1 & H2 & H3 & _ & _ & H6) _].
  exact (conj H1 (conj H2 (conj H3 H6))).
Defined.

(** C6 at the call site [get_metadata]: the entry of the cache is handed
    out as it is, also when its file is missing or empty, whereas
    [create_job] and [download_audio] test the file first and take such an
    entry for a miss. *)
Theorem get_metadata_returns_stale_entry
    cache fs m video_id entry file job_id now url title :
  cache !! video_id = Some entry ->
  ce_file entry = Some file ->
  valid_file fs file = false ->
  get_metadata cache video_id
  = JsonResponse
      (MetadataBody video_id (default [] (ce_metadata entry))
         ("/stream/" +:+ PyStr.basename file) (ce_downloaded_at entry))
      200
  /\ create_job cache fs job_id now video_id url title m
     = (new_job job_id video_id url title now,
        {| jobs := <[job_id := new_job job_id video_id url title now]> (jobs m);
           job_queue := job_queue m ++ [job_id] |})
  /\ exists job s,
       download_audio_begin job_id now video_id url
         {| job_manager := m; cache := cache; disk := fs |} = inr (job, s)
       /\ status job = queued
       /\ job_queue (job_manager s) = job_queue m ++ [job_id].
Proof.
  intros Hentry Hfile Hinvalid. split; [|split].
  - unfold get_metadata. by rewrite Hentry, Hfile.
  - apply create_job_miss. right. exists entry. by rewrite Hfile.
  - unfold download_audio_begin, server_create_job. simpl.
    rewrite Hentry, Hfile. simpl. rewrite Hinvalid.
    rewrite create_job_miss by (right; exists entry; by rewrite Hfile).
    by eexists _, _.
Qed.

(** The entry points at a file that is gone: [get_metadata] still answers
    200 with its stream url. *)
Lemma get_metadata_returns_stale_entry_witness :
  get_metadata sample_cache "dQw4w9WgXcQ"
  = JsonResponse
      (MetadataBody "dQw4w9WgXcQ" [("title", PyStr "Song")]
         "/stream/a.mp3" (Some "2024-05-01T10:00:00"))
      200
  /\ valid_file ∅ "/srv/audio/a.mp3" = false.
Proof.
  split; [|reflexivity].
  exact (proj1 (get_metadata_returns_stale_entry sample_cache ∅ empty_manager
                  "dQw4w9WgXcQ" (sample_entry "/srv/audio/a.mp3")
                  "/srv/audio/a.mp3" "job-1" "t1" "u" ""
                  eq_refl eq_refl eq_refl)).
Defined.

(** C7 as the code has it.  [create_job] looks the video id up in the cache
    only: while an earlier job for the id is still queued or downloading
    and the cache has no entry yet, a call creates a second job for the id
    and puts it on the work queue; the earlier job stays as it is.  What
    the lock gives is that each call puts its own job id on the queue
    once. *)
Theorem create_job_enqueues_again
    cache fs m vid job_id0 job0 job_id now url title :
  jobs m !! job_id0 = Some job0 ->
  video_id job0 = vid ->
  terminal (status job0) = false ->
  cache !! vid = None ->
  job_id <> job_id0 ->
  let r := create_job cache fs job_id now vid url title m in
  status (fst r) = queued
  /\ video_id (fst r) = vid
  /\ job_queue (snd r) = job_queue m ++ [job_id]
  /\ jobs (snd r) !! job_id = Some (fst r)
  /\ jobs (snd r) !! job_id0 = Some job0.
Proof.
  intros Hjob0 Hvid Hrun Hcache Hfresh r. unfold r.
  rewrite create_job_miss by by left. simpl.
  rewrite lookup_insert_eq, lookup_insert_ne by done. done.
Qed.

Lemma create_job_enqueues_again_witness :
  let r1 := create_job ∅ ∅ "job-1" "t1" "dQw4w9WgXcQ" "u" "" empty_manager in
  let r2 := create_job ∅ ∅ "job-2" "t2" "dQw4w9WgXcQ" "u" "" (snd r1) in
  status (fst r2) = queued /\ job_queue (snd r2) = ["job-1"; "job-2"].
Proof.
  assert ("job-2" <> "job-1") as Hfresh by discriminate.
  pose proof (create_job_enqueues_again ∅ ∅
                (snd (create_job ∅ ∅ "job-1" "t1" "dQw4w9WgXcQ" "u" ""
                        empty_manager))
                "dQw4w9WgXcQ" "job-1"
                (new_job "job-1" "dQw4w9WgXcQ" "u" "" "t1")
                "job-2" "t2" "u" "" eq_refl eq_refl eq_refl eq_refl Hfresh)
    as (H1 & _ & H3 & _).
  exact (conj H1 H3).
Defined.

(** C7 as the specification words it fails: with nothing in the cache and
    the first job for the video still queued, a second [create_job] for
    the same video puts a second job on the work queue, and the workers
    fetch the video twice. *)
Lemma create_job_duplicate_fetch_counterexample :
  let r1 := create_job ∅ ∅ "job-1" "t1" "dQw4w9WgXcQ" "u" "" empty_manager in
  let r2 := create_job ∅ ∅ "job-2" "t2" "dQw4w9WgXcQ" "u" "" (snd r1) in
  terminal (status (fst r1)) = false
  /\ job_queue (snd r2) = ["job-1"; "job-2"]
  /\ (video_id <$> jobs (snd r2) !! "job-1") = Some "dQw4w9WgXcQ"
  /\ (video_id <$> jobs (snd r2) !! "job-2") = Some "dQw4w9WgXcQ"
  /\ (status <$> jobs (snd r2) !! "job-1") = Some queued
  /\ (status <$> jobs (snd r2) !! "job-2") = Some queued.
Proof. cbv zeta. split_and!; reflexivity. Qed.

End CreateJob.

(** ** The life of a job *)

Section JobLifecycle.

Lemma snap_running_statuses pre :
  Forall snap_running pre ->
  map snap_status pre = repeat downloading (length pre).
Proof.
  induction 1 as [|snap pre [Hst _] _ IH]; simpl; [done|]. by rewrite Hst, IH.
Qed.

(** What one round of [_worker] does with a queued job at the head of the
    queue. *)
Lemma worker_processes AUDIO_DIR w s job_id rest job :
  job_queue (job_manager s) = job_id :: rest ->
  jobs (job_manager s) !! job_id = Some job ->
  status job = queued ->
  error job = None ->
  exists ws pre,
    _worker AUDIO_DIR w s
    = ({| job_manager :=
            {| jobs := <[job_id := ws_job ws]> (jobs (job_manager s));
               job_queue := rest |};
          cache := ws_cache ws; disk := ws_fs ws |},
       pre ++ [to_dict (ws_job ws)])
    /\ process_job_result w
         {| ws_job := job; ws_cache := cache s; ws_fs := disk s;
            ws_published := [] |} ws pre.
Proof.
  intros Hqueue Hjob Hstatus Herror. unfold _worker.
  rewrite Hqueue, Hjob. destruct (decide (status job = queued)); [|done].
  destruct (process_job_run AUDIO_DIR w
              {| ws_job := job; ws_cache := cache s; ws_fs := disk s;
                 ws_published := [] |} Herror) as (ws & pre & -> & Hres).
  exists ws, pre. split; [|done].
  destruct Hres as (-> & _). done.
Qed.

(** C1. A queued job that a worker takes from the queue is seen, in the
    snapshots the worker publishes, as downloading one or more times and
    then once in a terminal state, in which the worker leaves it in the
    table: queued, downloading, then completed or failed.  A job of the
    table that is not queued is left as it is by a round of the worker,
    which publishes nothing for it when it finds its id on the queue;
    [create_job] with a new job id leaves the jobs of the table as they are
    (the job it makes on a cache hit starts as completed); the event stream
    changes the list of subscriber queues only. *)
Theorem job_status_transitions AUDIO_DIR w s job_id rest :
  job_queue (job_manager s) = job_id :: rest ->
  (forall job,
     jobs (job_manager s) !! job_id = Some job ->
     status job = queued -> error job = None ->
     exists n t job',
       map snap_status (to_dict job :: snd (_worker AUDIO_DIR w s))
       = queued :: repeat downloading (S n) ++ [t]
       /\ terminal t = true
       /\ jobs (job_manager (fst (_worker AUDIO_DIR w s))) !! job_id
          = Some job'
       /\ status job' = t
       /\ last (snd (_worker AUDIO_DIR w s)) = Some (to_dict job'))
  /\ (forall k j,
        jobs (job_manager s) !! k = Some j -> status j <> queued ->
        jobs (job_manager (fst (_worker AUDIO_DIR w s))) !! k = Some j
        /\ (k = job_id ->
            snd (_worker AUDIO_DIR w s) = []
            /\ cache (fst (_worker AUDIO_DIR w s)) = cache s
            /\ disk (fst (_worker AUDIO_DIR w s)) = disk s))
  /\ (forall new_id now vid url title k j,
        jobs (job_manager s) !! new_id = None ->
        jobs (job_manager s) !! k = Some j ->
        jobs (job_manager
                (snd (server_create_job new_id now vid url title s))) !! k
        = Some j)
  /\ (forall fresh disconnect st j,
        to_dict (stream_step fresh disconnect st j).1.2 = to_dict j
        /\ file_path (stream_step fresh disconnect st j).1.2 = file_path j).
Proof.
  intros Hqueue. split_and!.
  - intros job Hjob Hstatus Herror.
    destruct (worker_processes AUDIO_DIR w s job_id rest job)
      as (ws & pre & -> & Hlog & Hne & Hpre & _ & Hend & _); try done.
    destruct pre as [|snap pre]; [done|].
    exists (length pre), (status (ws_job ws)), (ws_job ws). simpl.
    split_and!.
    + pose proof (snap_running_statuses _ Hpre) as Hs. simpl in Hs.
      injection Hs as Hs1 Hs2. by rewrite map_app, Hs1, Hs2, Hstatus.
    + by destruct Hend as [(-> & _) | (-> & _)].
    + apply lookup_insert_eq.
    + done.
    + by rewrite app_comm_cons, last_snoc.
  - intros k j Hk Hj. unfold _worker. rewrite Hqueue.
    destruct (decide (k = job_id)) as [->|Hne].
    + rewrite Hk. destruct (decide (status j = queued)); [done|]. by simpl.
    + split; [|done].
      destruct (jobs (job_manager s) !! job_id) as [job|]; [|done].
      destruct (decide (status job = queued)); [|done].
      destruct (_process_job _ _ _) as [r ws]. simpl.
      by rewrite lookup_insert_ne.
  - intros new_id now vid url title k j Hnew Hk.
    unfold server_create_job, create_job.
    assert (k <> new_id) as Hne by congruence.
    destruct (cache s !! vid) as [entry|]; simpl;
      [destruct (valid_file _ _); simpl|]; by rewrite lookup_insert_ne.
  - intros fresh disconnect st j.
    destruct st as [|q|]; simpl; destruct disconnect; try done.
    unfold stream_round.
    destruct (List.find _ _) as [[q' [|data items]]|];
      repeat (destruct (terminal _)); done.
Qed.

Lemma job_status_transitions_witness :
  map snap_status
    (to_dict sample_job
     :: snd (_worker "/srv/audio" (sample_run []) sample_server))
  = [queued; downloading; downloading; downloading; completed]
  /\ (status <$> jobs (job_manager
                         (fst (_worker "/srv/audio" (sample_run [])
                                 sample_server))) !! "job-1")
     = Some completed.
Proof.
  pose proof (job_status_transitions "/srv/audio" (sample_run [])
                sample_server "job-1" [] eq_refl) as [H _].
  destruct (H sample_job eq_refl eq_refl eq_refl)
    as (n & t & job' & H1 & H2 & H3 & H4 & H5).
  split; vm_compute; reflexivity.
Defined.

(** C2, as the code has it.  Whatever yt-dlp reports, in every snapshot
    published for a job, and in the job as created, the progress is at
    most 85 (so at most 99) unless the status is completed, and it is 100
    exactly when the status is completed; this holds for a job made from
    the cache as well.  The progress never goes
    down along the snapshots when the reports are orderly: one positive
    total in every downloading report, bytes downloaded that never go down,
    no downloading report after a finished one. *)
Theorem job_progress_bounds AUDIO_DIR w job cache fs :
  status job = queued -> progress job = 0 -> error job = None ->
  Forall (fun snap =>
            (snap_status snap <> completed -> snap_progress snap <= 85)
            /\ (snap_progress snap = 100 <-> snap_status snap = completed))
    (job_trace AUDIO_DIR w job cache fs)
  /\ (exists final,
        last (job_trace AUDIO_DIR w job cache fs) = Some final
        /\ terminal (snap_status final) = true
        /\ final
           = to_dict (ws_job (snd (_process_job AUDIO_DIR w
                                     {| ws_job := job; ws_cache := cache;
                                        ws_fs := fs; ws_published := [] |}))))
  /\ (forall total,
        orderly total (run_reports w) = true ->
        Sorted Z.le (map snap_progress (job_trace AUDIO_DIR w job cache fs)))
  /\ (forall job_id now vid url title entry file,
        let hit := cached_job job_id now vid url title entry file in
        status hit = completed /\ progress hit = 100).
Proof.
  intros Hstatus Hprogress Herror. unfold job_trace.
  destruct (process_job_run AUDIO_DIR w
              {| ws_job := job; ws_cache := cache; ws_fs := fs;
                 ws_published := [] |} Herror)
    as (ws & pre & -> & Hlog & Hne & Hpre & _ & Hend & Hchain).
  simpl in *. rewrite Hlog. split_and!.
  - constructor; [simpl; rewrite Hstatus, Hprogress; split; [lia|done]|].
    apply Forall_app. split.
    + eapply Forall_impl; [exact Hpre|]. intros snap (Hs & _ & Hp).
      rewrite Hs. split; [done|]. split; [lia|done].
    + constructor; [|constructor]. simpl.
      destruct Hend as [(-> & -> & _) | (-> & Hp & _)];
        (split; [done|]); split; try done; lia.
  - exists (to_dict (ws_job ws)). split_and!; [|simpl|done].
    + by rewrite app_comm_cons, last_snoc.
    + by destruct Hend as [(-> & _) | (-> & _)].
  - intros total Hord.
    assert (chain (progress job) (map snap_progress pre)
              (progress (ws_job ws))) as Hch
      by (apply (Hchain total Hord); lia).
    simpl. rewrite map_app. simpl.
    eapply chain_sorted, chain_snoc, Hch.
  - done.
Qed.

Lemma job_progress_bounds_witness :
  let w := sample_run [sample_report HookDownloading 100 0;
                       sample_report HookDownloading 100 50;
                       sample_report HookDownloading 100 100;
                       sample_report HookFinished 100 100] in
  map snap_progress (job_trace "/srv/audio" w sample_job ∅ ∅)
  = [0; 5; 10; 10; 40; 70; 75; 85; 100]
  /\ Sorted Z.le (map snap_progress (job_trace "/srv/audio" w sample_job ∅ ∅)).
Proof.
  intros w. split; [reflexivity|].
  exact (proj1 (proj2 (proj2
    (job_progress_bounds "/srv/audio" w sample_job ∅ ∅
       eq_refl eq_refl eq_refl))) 100 eq_refl).
Defined.

(** C2 as the specification words it fails: when the bytes reported go
    from 50 of 100 back to 0 of 100, the progress goes from 40 down
    to 10. *)
Lemma job_progress_decreases_counterexample :
  let w := sample_run [sample_report HookDownloading 100 50;
                       sample_report HookDownloading 100 0] in
  map (fun snap => (snap_status snap, snap_progress snap))
    (job_trace "/srv/audio" w sample_job ∅ ∅)
  = [(queued, 0); (downloading, 5); (downloading, 10); (downloading, 40);
     (downloading, 10); (downloading, 85); (completed, 100)]
  /\ ~ Sorted Z.le (map snap_progress (job_trace "/srv/audio" w sample_job ∅ ∅)).
Proof.
  intros w. split; [reflexivity|].
  intros H. change (map snap_progress (job_trace "/srv/audio" w sample_job ∅ ∅))
    with [0; 5; 10; 40; 10; 85; 100] in H.
  do 3 (apply Sorted_inv in H as [H _]).
  apply Sorted_inv in H as [_ H]. apply HdRel_inv in H. lia.
Qed.

End JobLifecycle.

(** ** Waiting for a download *)

Section DownloadAudio.

(** The loop ends at the first test that finds the job in a terminal state
    or the time up. *)
Lemma download_wait_ends tests k :
  download_wait tests = Some k ->
  exists st elapsed,
    tests !! k = Some (st, elapsed)
    /\ (terminal st = true \/ (timeout <= elapsed)%Q).
Proof.
  revert k. induction tests as [|[st elapsed] rest IH]; intros k; [done|].
  simpl. destruct (terminal st) eqn:Hst; simpl.
  - intros [= <-]. exists st, elapsed. auto.
  - unfold before_timeout. destruct (Qlt_le_dec elapsed timeout).
    + destruct (download_wait rest) as [k'|]; [|done]. intros [= <-].
      by apply IH.
    + intros [= <-]. exists st, elapsed. auto.
Qed.

(** It does end once the clock has reached the timeout. *)
Lemma download_wait_bounded tests :
  Exists (fun test => (timeout <= test.2)%Q) tests ->
  is_Some (download_wait tests).
Proof.
  induction 1 as [[st elapsed] rest Hup | [st elapsed] rest _ IH]; simpl.
  - unfold before_timeout. simpl in Hup.
    destruct (Qlt_le_dec elapsed timeout) as [Hlt|]; [|by rewrite andb_false_r].
    by apply Qlt_not_le in Hlt.
  - destruct (_ && _)%bool; [|done]. destruct IH as [k ->]. done.
Qed.

(** C9.  A call of the synchronous path that finds no valid cache entry
    creates a job and waits.  When every test of its loop finds the job not
    yet in a terminal state, the loop ends only with the 180 seconds up
    (and it does end once they are up); when the job is then still not in
    a terminal state, the answer is the error [Download timed out] with
    status 500.  The view only reads the job: the worker that takes it from
    the queue runs it to a terminal state, leaves it so in the table, and
    when that state is completed the cache has the entry for the video id,
    pointing at a file that exists and is not empty. *)
Theorem download_audio_timeout
    AUDIO_DIR w s job_id now vid url job s1 tests k sq rest seen :
  download_audio_begin job_id now vid url s = inr (job, s1) ->
  download_wait tests = Some k ->
  Forall (fun test => terminal test.1 = false) tests ->
  job_queue (job_manager sq) = job_id :: rest ->
  jobs (job_manager sq) !! job_id = Some job ->
  seen ∈ to_dict job :: snd (_worker AUDIO_DIR w sq) ->
  terminal (snap_status seen) = false ->
  download_audio_end vid seen
  = JsonResponse (ErrorBody "Download timed out") 500
  /\ (exists st elapsed,
        tests !! k = Some (st, elapsed) /\ (timeout <= elapsed)%Q)
  /\ (forall more,
        Exists (fun test => (timeout <= test.2)%Q) more ->
        is_Some (download_wait more))
  /\ job_queue (job_manager s1) = job_queue (job_manager s) ++ [job_id]
  /\ exists job',
       jobs (job_manager (fst (_worker AUDIO_DIR w sq))) !! job_id = Some job'
       /\ terminal (status job') = true
       /\ last (snd (_worker AUDIO_DIR w sq)) = Some (to_dict job')
       /\ (status job' = completed ->
           exists out,
             cache (fst (_worker AUDIO_DIR w sq)) !! vid
             = Some (new_cache_entry w out (metadata job'))
             /\ valid_file (disk (fst (_worker AUDIO_DIR w sq))) out = true
             /\ file_path job' = Some out).
Proof.
  intros Hbegin Hwait Hrunning Hqueue Hjob Hseen Hnonterminal.
  assert (job = new_job job_id vid url "" now
          /\ job_queue (job_manager s1) = job_queue (job_manager s) ++ [job_id])
    as [-> Hq1].
  { unfold download_audio_begin, server_create_job, create_job in Hbegin.
    destruct (cache s !! vid) as [entry|]; simpl in Hbegin;
      [destruct (valid_file _ _); [done|]|];
      by injection Hbegin as <- <-. }
  destruct (worker_processes AUDIO_DIR w sq job_id rest _ Hqueue Hjob)
    as (ws & pre & Hworker & _ & Hne & Hpre & Hvid & Hend & _); try done.
  rewrite Hworker in *. simpl in *. split_and!.
  - assert (snap_error seen = None) as Herr.
    { rewrite app_comm_cons in Hseen.
      apply elem_of_app in Hseen as [Hseen|Hseen].
      - apply elem_of_cons in Hseen as [->|Hseen]; [done|].
        rewrite Forall_forall in Hpre. by apply Hpre in Hseen as (_ & ? & _).
      - apply list_elem_of_singleton in Hseen as ->. simpl in *.
        destruct Hend as [(Hst & _) | (Hst & _)];
          by rewrite Hst in Hnonterminal. }
    unfold download_audio_end. rewrite Herr.
    destruct (decide _) as [Hc|]; [|done].
    by rewrite Hc in Hnonterminal.
  - destruct (download_wait_ends tests k Hwait)
      as (st & elapsed & Hk & [Hst|Hup]); [|by eauto].
    rewrite Forall_forall in Hrunning.
    apply list_elem_of_lookup_2, Hrunning in Hk. simpl in Hk. congruence.
  - apply download_wait_bounded.
  - done.
  - exists (ws_job ws). split_and!.
    + apply lookup_insert_eq.
    + by destruct Hend as [(-> & _) | (-> & _)].
    + by rewrite last_snoc.
    + intros Hc. destruct Hend as [(_ & _ & _ & out & ? & ? & ? & _) | (Hf & _)];
        [by exists out|congruence].
Qed.

Lemma download_audio_timeout_witness :
  download_audio_end "dQw4w9WgXcQ" (to_dict sample_job)
  = JsonResponse (ErrorBody "Download timed out") 500
  /\ download_wait [(queued, 0%Q); (downloading, 90%Q); (downloading, 180%Q)]
     = Some 2%nat
  /\ (status <$> jobs (job_manager
                         (fst (_worker "/srv/audio" (sample_run [])
                                 sample_server))) !! "job-1")
     = Some completed.
Proof.
  assert (to_dict sample_job
          ∈ to_dict sample_job
            :: snd (_worker "/srv/audio" (sample_run []) sample_server))
    as Hseen by (apply elem_of_cons; by left).
  assert (Forall (fun test : job_status * Q => terminal test.1 = false)
            [(queued, 0%Q); (downloading, 90%Q); (downloading, 180%Q)])
    as Hrunning by (repeat constructor).
  pose proof (download_audio_timeout "/srv/audio" (sample_run [])
                {| job_manager := empty_manager; cache := ∅; disk := ∅ |}
                "job-1" "t0" "dQw4w9WgXcQ" "https://youtu.be/dQw4w9WgXcQ"
                sample_job sample_server
                [(queued, 0%Q); (downloading, 90%Q); (downloading, 180%Q)]
                2%nat sample_server [] (to_dict sample_job)
                eq_refl eq_refl Hrunning eq_refl eq_refl Hseen eq_refl)
    as (H1 & _).
  split; [exact H1|]. split; reflexivity.
Defined.

End DownloadAudio.

(** ** The event stream *)

Section JobEvents.

Lemma find_fresh_queue q (qs : list subscriber_queue) :
  Forall (fun s => sq_id s <> q) qs ->
  List.find (fun s => Nat.eqb (sq_id s) q)
    (qs ++ [{| sq_id := q; sq_items := [] |}])
  = Some {| sq_id := q; sq_items := [] |}.
Proof.
  induction 1 as [|s qs Hs _ IH]; simpl.
  - by rewrite Nat.eqb_refl.
  - by apply Nat.eqb_neq in Hs as ->.
Qed.

Lemma unsubscribe_fresh_queue q j (qs : list subscriber_queue) :
  Forall (fun s => sq_id s <> q) qs ->
  subscribers j = qs ++ [{| sq_id := q; sq_items := [] |}] ->
  subscribers (unsubscribe q j) = qs.
Proof.
  intros Hfresh Hsubs. unfold unsubscribe. simpl.
  rewrite Hsubs, find_fresh_queue by done. clear Hsubs.
  induction Hfresh as [|s qs Hs _ IH]; simpl.
  - by rewrite Nat.eqb_refl.
  - apply Nat.eqb_neq in Hs as ->. by rewrite IH.
Qed.

(** C8, as the code has it.  A subscriber that registers (with a new queue
    [q]) on a job already in a terminal state is sent the snapshot with
    that state first, and its queue is registered; the stream is then
    still open.  Nothing is published for such a job any more, so the next
    round of the loop finds the queue empty: it sends one heartbeat, sees
    the terminal status, ends the stream and takes the queue off the list
    of subscribers.  When the transport goes away instead, the stream ends
    and the queue is taken off as well.  The job is otherwise not
    touched. *)
Theorem job_events_late_subscriber q j :
  terminal (status j) = true ->
  Forall (fun s => sq_id s <> q) (subscribers j) ->
  let first := stream_step q false StreamNew j in
  let second := stream_step q false first.2 first.1.2 in
  let gone := stream_step q true first.2 first.1.2 in
  (first.1.1 = [Data (to_dict j)]
   /\ terminal (snap_status (to_dict j)) = true
   /\ first.2 = StreamOpen q
   /\ subscribers first.1.2
      = subscribers j ++ [{| sq_id := q; sq_items := [] |}])
  /\ (second.1.1 = [Heartbeat]
      /\ second.2 = StreamClosed
      /\ subscribers second.1.2 = subscribers j
      /\ to_dict second.1.2 = to_dict j)
  /\ (gone.1.1 = [] /\ gone.2 = StreamClosed
      /\ subscribers gone.1.2 = subscribers j).
Proof.
  intros Hterminal Hfresh first second gone.
  assert (first = ([Data (to_dict j)],
                   set_subscribers
                     (subscribers j ++ [{| sq_id := q; sq_items := [] |}]) j,
                   StreamOpen q)) as Hfirst by done.
  assert (second = ([Heartbeat], unsubscribe q first.1.2, StreamClosed))
    as Hsecond.
  { unfold second. rewrite Hfirst. simpl. unfold stream_round. simpl.
    rewrite find_fresh_queue by done. by rewrite Hterminal. }
  assert (gone = ([], unsubscribe q first.1.2, StreamClosed)) as Hgone
    by (unfold gone; by rewrite Hfirst).
  rewrite Hsecond, Hgone, Hfirst. cbn -[unsubscribe]. split_and!; try done.
  all: by apply (unsubscribe_fresh_queue q _ (subscribers j)).
Qed.

Lemma job_events_late_subscriber_witness :
  let first := stream_step 1 false StreamNew completed_job in
  let second := stream_step 1 false first.2 first.1.2 in
  first.1.1 ++ second.1.1 = [Data (to_dict completed_job); Heartbeat]
  /\ second.2 = StreamClosed
  /\ subscribers second.1.2 = [].
Proof.
  assert (Forall (fun s => sq_id s <> 1%nat) (subscribers completed_job))
    as Hfresh by constructor.
  pose proof (job_events_late_subscriber 1 completed_job eq_refl Hfresh)
    as ((H1 & _) & (H2 & H3 & H4 & _) & _).
  cbv zeta. rewrite H1, H2. split; [done|]. split; [exact H3|exact H4].
Defined.

(** C8 as the specification words it fails: once the snapshot with the
    terminal state has been delivered to the late subscriber, the stream
    is not closed and the queue is still registered; the stream goes on
    with a heartbeat and closes only then. *)
Lemma job_events_late_subscriber_counterexample :
  let first := stream_step 1 false StreamNew completed_job in
  let second := stream_step 1 false first.2 first.1.2 in
  first.1.1 = [Data (to_dict completed_job)]
  /\ terminal (snap_status (to_dict completed_job)) = true
  /\ first.2 = StreamOpen 1
  /\ first.2 <> StreamClosed
  /\ subscribers first.1.2 = [{| sq_id := 1; sq_items := [] |}]
  /\ second.1.1 = [Heartbeat].
Proof. cbv zeta. split_and!; try reflexivity. discriminate. Qed.

End JobEvents.

(** * Further properties *)

(** ** Ranges *)

Section StreamAudioRanges.
Import PyStr PyStrSpec PyStrFacts.



(** A header [bytes=-<n>], which asks for the last [n] bytes, is read by
    the view as start 0 and end [n]: it answers 206 with the first
    [n + 1] bytes of the file. *)
Theorem stream_audio_suffix_range AUDIO_DIR max_offset fs filename content e :
  contains ".." filename = false ->
  contains "/" filename = false ->
  fs !! path_join AUDIO_DIR filename = Some content ->
  e <> "" -> all_digits e = true ->
  Z.of_nat (String.length e) <= max_str_digits ->
  decimal e + 1 < 10 ^ max_str_digits ->
  let N := Z.of_nat (length content) in
  let r := stream_audio AUDIO_DIR max_offset fs (Some ("bytes=-" +:+ e))
             filename in
  response_status r = 206
  /\ header "Content-Range" r
     = Some ("bytes 0-" +:+ of_int (decimal e) +:+ "/" +:+ of_int N)
  /\ header "Content-Length" r = Some (of_int (decimal e + 1))
  /\ response_body r = take (Z.to_nat (decimal e + 1)) content.
Proof.
  intros Hdots Hslash Hfile Hne Hdigits Hle Hlen N r.
  assert (parse_range ("bytes=-" +:+ e) N = Some (0, decimal e)) as Hparse.
  { unfold parse_range, range_fields.
    change ("bytes=-" +:+ e) with ("bytes=" +:+ String "-" e).
    rewrite replace_bytes_prefix
      by (simpl; by rewrite (all_digits_free_of _ "b")).
    change (split "-" (String "-" e)) with ("" :: split "-" e).
    rewrite split_free_of by (by apply all_digits_free_of).
    simpl. destruct (String.eqb_spec e ""); [done|].
    by rewrite to_int_digits. }
  pose proof (decimal_bound e Hdigits Hle) as Hend.
  destruct (partial_response_written max_offset content N 0 (decimal e))
    as (r' & Hr' & Hst & Hcr & _ & Hcl & Hok & _).
  { apply Z.pow_pos_nonneg; [done|]. unfold max_str_digits. lia. }
  { lia. }
  { rewrite Z.sub_0_r. lia. }
  assert (r = r') as <-.
  { unfold r. rewrite (stream_audio_served _ _ _ _ content) by done.
    change ("bytes=-" +:+ e) with (String "b" ("ytes=-" +:+ e)). cbv iota.
    change (String "b" ("ytes=-" +:+ e)) with ("bytes=-" +:+ e).
    unfold range_response. fold N. rewrite Hparse. cbn [mbind option_bind].
    by rewrite Hr'. }
  destruct Hok as (chunks & Hchunks & Hbody & _).
  { apply seekable_spec. lia. }
  rewrite Z.sub_0_r in Hcl. split_and!; [done|done|done|].
  rewrite Hchunks. simpl. rewrite Hbody. unfold byte_span.
  by rewrite Z.sub_0_r.
Qed.

Lemma stream_audio_suffix_range_witness :
  let r := stream_audio "/srv/audio" (2 ^ 40) (sample_disk 1000)
             (Some "bytes=-100") "a.mp3" in
  header "Content-Range" r = Some "bytes 0-100/1000"
  /\ response_body r = take 101 (sample_file 1000).
Proof.
  assert ("100" <> "") as Hne by discriminate.
  assert (Z.of_nat (String.length "100") <= max_str_digits) as Hle
    by (vm_compute; discriminate).
  assert (decimal "100" + 1 < 10 ^ max_str_digits) as Hlen
    by (vm_compute; reflexivity).
  pose proof (stream_audio_suffix_range "/srv/audio" (2 ^ 40)
                (sample_disk 1000) "a.mp3" (sample_file 1000) "100"
                eq_refl eq_refl eq_refl Hne eq_refl Hle Hlen)
    as (_ & H2 & _ & H4).
  exact (conj H2 H4).
Defined.

End StreamAudioRanges.

(** ** Video ids *)

Section VideoId.
Import PyStr PyStrSpec PyStrFacts.

Lemma after_literal_spec lit s r :
  after_literal lit s = Some r <-> s = lit +:+ r.
Proof.
  revert s. induction lit as [|a lit IH]; intros s; simpl.
  - split; [by intros [= ->]|by intros ->].
  - destruct s as [|b s]; [done|].
    destruct (Ascii.eqb_spec a b) as [->|Hne].
    + rewrite IH. split; [by intros ->|by intros [= ->]].
    + split; [done|]. intros [= ? _]. congruence.
Qed.

Lemma match_id_spec n s g :
  match_id n s = Some g
  <-> exists rest, s = g +:+ rest /\ String.length g = n /\ id_chars g = true.
Proof.
  revert s g. induction n as [|n IH]; intros s g; simpl.
  - split.
    + intros [= <-]. by exists s.
    + intros (rest & _ & Hlen & _). by destruct g.
  - destruct s as [|c s].
    + split; [done|]. intros (rest & Hs & Hlen & _). by destruct g.
    + destruct (id_char c) eqn:Hc.
      * destruct (match_id n s) as [g'|] eqn:Hg'; simpl.
        -- apply IH in Hg' as (rest & -> & Hlen & Hchars). split.
           ++ intros [= <-]. exists rest. simpl. by rewrite Hc, Hlen, Hchars.
           ++ intros (rest' & Hs & Hlen' & Hchars').
              destruct g as [|c' g]; [done|]. simpl in *.
              injection Hs as <- Hs. injection Hlen' as Hlen'.
              apply andb_prop in Hchars' as [_ Hchars'].
              assert (match_id n (g' +:+ rest) = Some g) as Hg
                by (apply IH; by exists rest').
              assert (match_id n (g' +:+ rest) = Some g') as Hg'
                by (apply IH; by exists rest).
              congruence.
        -- split; [done|]. intros (rest' & Hs & Hlen' & Hchars').
           destruct g as [|c' g]; [done|]. simpl in *.
           injection Hs as <- Hs. injection Hlen' as Hlen'.
           apply andb_prop in Hchars' as [_ Hchars'].
           assert (match_id n s = Some g) as Hg by (apply IH; by exists rest').
           congruence.
      * split; [done|]. intros (rest' & Hs & Hlen' & Hchars').
        destruct g as [|c' g]; [done|]. simpl in *.
        injection Hs as <- Hs. apply andb_prop in Hchars' as [? _]. congruence.
Qed.

Local Arguments match_id : simpl never.

Lemma match_here_sound lits s g :
  match_here lits s = Some g ->
  exists lit rest,
    lit ∈ lits /\ s = lit +:+ g +:+ rest
    /\ String.length g = 11%nat /\ id_chars g = true.
Proof.
  induction lits as [|lit lits IH]; simpl; [done|].
  destruct (after_literal lit s) as [r|] eqn:Hr; simpl.
  - destruct (match_id 11 r) as [g'|] eqn:Hg.
    + intros [= <-]. apply after_literal_spec in Hr as ->.
      apply match_id_spec in Hg as (rest & -> & Hlen & Hchars).
      exists lit, rest. split_and!; try done. apply elem_of_cons. by left.
    + intros (lit' & rest & ? & ?)%IH. exists lit', rest.
      split; [|done]. apply elem_of_cons. by right.
  - intros (lit' & rest & ? & ?)%IH. exists lit', rest.
    split; [|done]. apply elem_of_cons. by right.
Qed.

Lemma match_here_complete lits lit g rest :
  lit ∈ lits -> String.length g = 11%nat -> id_chars g = true ->
  is_Some (match_here lits (lit +:+ g +:+ rest)).
Proof.
  intros Hin Hlen Hchars. induction lits as [|lit' lits IH]; simpl.
  - by apply elem_of_nil in Hin.
  - destruct (after_literal lit' _ ≫= match_id 11) eqn:E; [done|].
    apply elem_of_cons in Hin as [<-|Hin]; [|by apply IH].
    assert (after_literal lit (lit +:+ g +:+ rest) = Some (g +:+ rest)) as Hr
      by by apply after_literal_spec.
    assert (match_id 11 (g +:+ rest) = Some g) as Hg
      by (apply match_id_spec; by exists rest).
    rewrite Hr in E. simpl in E. congruence.
Qed.

Lemma re_search_sound lits url g :
  re_search lits url = Some g ->
  exists pre lit rest,
    lit ∈ lits /\ url = pre +:+ lit +:+ g +:+ rest
    /\ String.length g = 11%nat /\ id_chars g = true.
Proof.
  induction url as [|c url IH]; simpl.
  - destruct (match_here lits "") as [g'|] eqn:Hm; [|done].
    intros [= <-]. apply match_here_sound in Hm as (lit & rest & ? & ? & ?).
    by exists "", lit, rest.
  - destruct (match_here lits (String c url)) as [g'|] eqn:Hm.
    + intros [= <-]. apply match_here_sound in Hm as (lit & rest & ? & ? & ?).
      by exists "", lit, rest.
    + intros (pre & lit & rest & ? & -> & ?)%IH.
      by exists (String c pre), lit, rest.
Qed.

Lemma re_search_complete lits pre s :
  is_Some (match_here lits s) -> is_Some (re_search lits (pre +:+ s)).
Proof.
  intros [g Hg]. induction pre as [|c pre IH]; simpl.
  - destruct s; simpl; by rewrite Hg.
  - by destruct (match_here lits (String c (pre +:+ s))).
Qed.

(** A match cannot start at a character with which no literal starts. *)
Lemma re_search_skip c lits pre s :
  Forall (fun lit => exists lit', lit = String c lit') lits ->
  free_of c pre = true ->
  re_search lits (pre +:+ s) = re_search lits s.
Proof.
  intros Hlits. induction pre as [|b pre IH]; [done|].
  intros [Hb Hpre]%andb_prop. apply negb_true_iff in Hb. simpl.
  assert (match_here lits (String b (pre +:+ s)) = None) as ->; [|by apply IH].
  clear IH. induction Hlits as [|lit lits [lit' ->] _ IH]; [done|].
  simpl. rewrite Ascii.eqb_sym, Hb. exact IH.
Qed.

(** What [extract_video_id] returns is a string of eleven characters of
    the class [[a-zA-Z0-9_-]] that stands in the url right behind
    [youtube.com/watch?v=], [youtu.be/], [youtube.com/embed/] or [v=]; and
    a url is accepted exactly when it has such a place. *)
Theorem extract_video_id_characterised url :
  (forall vid,
     extract_video_id url = Some vid ->
     String.length vid = 11%nat /\ id_chars vid = true
     /\ exists pre lit rest,
          lit ∈ id_literals /\ url = pre +:+ lit +:+ vid +:+ rest)
  /\ (is_Some (extract_video_id url)
      <-> exists pre lit vid rest,
            lit ∈ id_literals /\ url = pre +:+ lit +:+ vid +:+ rest
            /\ String.length vid = 11%nat /\ id_chars vid = true).
Proof.
  assert (forall vid,
    extract_video_id url = Some vid ->
    exists pre lit rest,
      lit ∈ id_literals /\ url = pre +:+ lit +:+ vid +:+ rest
      /\ String.length vid = 11%nat /\ id_chars vid = true) as Hsound.
  { intros vid. unfold extract_video_id.
    destruct (re_search _ url) as [g|] eqn:H1.
    - intros [= <-].
      apply re_search_sound in H1 as (pre & lit & rest & Hin & ?).
      exists pre, lit, rest. split; [|done]. unfold id_literals.
      repeat (apply elem_of_cons in Hin as [->|Hin];
              [by repeat constructor|]). by apply elem_of_nil in Hin.
    - intros (pre & lit & rest & Hin & ?)%re_search_sound.
      exists pre, lit, rest. split; [|done]. unfold id_literals.
      apply elem_of_cons in Hin as [->|Hin]; [by repeat constructor|].
      by apply elem_of_nil in Hin. }
  split.
  - intros vid (pre & lit & rest & ? & ? & ? & ?)%Hsound.
    split_and!; try done. by exists pre, lit, rest.
  - split.
    + intros [vid (pre & lit & rest & ?)%Hsound]. by exists pre, lit, vid, rest.
    + intros (pre & lit & vid & rest & Hin & -> & Hlen & Hchars).
      unfold extract_video_id.
      destruct (re_search _ (pre +:+ _)) as [g|] eqn:H1; [done|].
      unfold id_literals in Hin.
      assert (lit = "v=") as ->.
      { repeat (apply elem_of_cons in Hin as [->|Hin];
          [exfalso;
           eapply is_Some_None; rewrite <- H1;
           apply re_search_complete, match_here_complete;
           [by repeat constructor|done|done]|]).
        apply elem_of_cons in Hin as [->|Hin]; [done|].
        by apply elem_of_nil in Hin. }
      apply re_search_complete, match_here_complete; [by repeat constructor|done|done].
Qed.

(** When the url has no [y] before the first of [youtube.com/watch?v=],
    [youtu.be/] and [youtube.com/embed/], as in [https://www.] or
    [https://m.], the id returned is the eleven characters behind it,
    whatever follows them. *)
Theorem extract_video_id_canonical pre lit vid rest :
  free_of "y" pre = true ->
  lit ∈ ["youtube.com/watch?v="; "youtu.be/"; "youtube.com/embed/"] ->
  String.length vid = 11%nat -> id_chars vid = true ->
  extract_video_id (pre +:+ lit +:+ vid +:+ rest) = Some vid.
Proof.
  intros Hpre Hlit Hlen Hchars. unfold extract_video_id.
  rewrite (re_search_skip "y"); [|repeat constructor; by eexists|done].
  assert (match_id 11 (vid +:+ rest) = Some vid) as Hid
    by (apply match_id_spec; by exists rest).
  assert (re_search
            ["youtube.com/watch?v="; "youtu.be/"; "youtube.com/embed/"]
            (lit +:+ vid +:+ rest) = Some vid) as ->; [|done].
  assert (forall lits r, match_here lits r = Some vid ->
            re_search lits r = Some vid) as Hhere
    by (intros lits r Hm; destruct r; simpl; by rewrite Hm).
  assert (forall l, after_literal l (l +:+ vid +:+ rest) = Some (vid +:+ rest))
    as Hafter by (intros l; by apply after_literal_spec).
  assert (forall l l', (forall r r', l +:+ r <> l' +:+ r') ->
            after_literal l (l' +:+ vid +:+ rest) = None) as Hother.
  { intros l l' Hne. destruct (after_literal l _) as [r|] eqn:E; [|done].
    apply after_literal_spec in E. by apply symmetry, Hne in E. }
  apply Hhere. cbn [match_here].
  repeat (apply elem_of_cons in Hlit as [->|Hlit];
    [repeat (rewrite Hother by (intros r r' E; cbv [String.append] in E;
                               discriminate E); cbn [mbind option_bind]);
     by rewrite Hafter; cbn [mbind option_bind]; rewrite Hid|]).
  by apply elem_of_nil in Hlit.
Qed.

Lemma extract_video_id_canonical_witness :
  extract_video_id "https://www.youtube.com/watch?v=dQw4w9WgXcQ&t=42"
  = Some "dQw4w9WgXcQ"
  /\ extract_video_id "https://youtu.be/dQw4w9WgXcQ" = Some "dQw4w9WgXcQ".
Proof.
  split.
  - apply (extract_video_id_canonical "https://www." "youtube.com/watch?v="
             "dQw4w9WgXcQ" "&t=42"); [reflexivity|by repeat constructor| |]; reflexivity.
  - apply (extract_video_id_canonical "https://" "youtu.be/"
             "dQw4w9WgXcQ" ""); [reflexivity|by repeat constructor| |]; reflexivity.
Defined.

Lemma extract_video_id_characterised_witness :
  String.length "dQw4w9WgXcQ" = 11%nat /\ id_chars "dQw4w9WgXcQ" = true.
Proof.
  pose proof (proj1 (extract_video_id_characterised
                       "https://youtu.be/dQw4w9WgXcQ") "dQw4w9WgXcQ" eq_refl)
    as (H1 & H2 & _).
  exact (conj H1 H2).
Defined.

End VideoId.

(** ** Submitting and looking up jobs *)

Section JobViews.

(** A request with a url in which a video id is found is answered with the
    snapshot of a job for that id, queued or (from the cache) completed;
    the job is in the table under its id, where [get_job_status] finds it
    and answers the same snapshot; the other ids of the table are answered
    as before, and an id that is not in the table is answered 404. *)
Theorem create_download_job_then_status new_id now url title s vid :
  url <> "" ->
  extract_video_id url = Some vid ->
  let r := create_download_job new_id now url title s in
  (exists job,
     r.1 = JobJson (to_dict job)
     /\ get_job (job_manager r.2) new_id = Some job
     /\ get_job_status r.2 new_id = r.1
     /\ job_id job = new_id /\ video_id job = vid
     /\ (status job = queued
         /\ job_queue (job_manager r.2) = job_queue (job_manager s) ++ [new_id]
         \/ status job = completed
            /\ job_queue (job_manager r.2) = job_queue (job_manager s)))
  /\ (forall k, k <> new_id -> get_job_status r.2 k = get_job_status s k)
  /\ (forall k,
        get_job (job_manager r.2) k = None ->
        get_job_status r.2 k = JobError "Job not found" 404)
  /\ cache r.2 = cache s /\ disk r.2 = disk s.
Proof.
  intros Hurl Hid r. unfold r, create_download_job.
  destruct (String.eqb_spec url ""); [done|]. rewrite Hid.
  unfold server_create_job, create_job, get_job_status, get_job.
  destruct (cache s !! vid) as [entry|]; simpl;
    [destruct (valid_file _ _); simpl|];
    (split_and!; try done;
     [eexists; rewrite lookup_insert_eq; split_and!; try done; auto
     |intros k Hk; by rewrite lookup_insert_ne
     |by intros k ->]).
Qed.

Lemma create_download_job_then_status_witness :
  let r := create_download_job "job-2" "t1"
             "https://youtu.be/dQw4w9WgXcQ" "Song" sample_server in
  get_job_status r.2 "job-2" = r.1
  /\ job_queue (job_manager r.2) = ["job-1"; "job-2"].
Proof.
  assert ("https://youtu.be/dQw4w9WgXcQ" <> "") as Hurl by discriminate.
  pose proof (create_download_job_then_status "job-2" "t1"
                "https://youtu.be/dQw4w9WgXcQ" "Song" sample_server
                "dQw4w9WgXcQ" Hurl eq_refl)
    as ((job & _ & _ & Hstatus & _) & _).
  split; [exact Hstatus|reflexivity].
Defined.

End JobViews.

(** ** Evicting from the cache *)

Section CacheEviction.

(** What [remove_if_exists] does is decided by the file of the entry:
    when the system refuses it the disk stays as it is and the message is
    raised, otherwise the file is gone. *)
Lemma remove_if_exists_spec refuses file (fs : filesystem) :
  remove_if_exists refuses file fs
  = match file with
    | Some p =>
        if String.eqb p "" then inr fs
        else match refuses p with
             | Some msg => inl msg
             | None => inr (without_file file fs)
             end
    | None => inr fs
    end.
Proof.
  unfold remove_if_exists, os_path_exists, unlink, without_file, path_exists.
  destruct file as [p|]; [|done].
  destruct (String.eqb p ""); [done|]. simpl.
  destruct (refuses p) as [msg|]; [by rewrite orb_true_r|].
  rewrite orb_false_r. case_bool_decide as Hex; [done|].
  rewrite delete_id; [done|]. by apply eq_None_not_Some.
Qed.

Lemma without_file_gone p (fs : filesystem) :
  p <> "" -> without_file (Some p) fs !! p = None.
Proof.
  intros Hp. unfold without_file.
  destruct (String.eqb_spec p ""); [done|]. apply lookup_delete_eq.
Qed.

Lemma without_file_other file p (fs : filesystem) :
  file <> Some p -> without_file file fs !! p = fs !! p.
Proof.
  intros Hne. unfold without_file. destruct file as [q|]; [|done].
  destruct (String.eqb q ""); [done|]. apply lookup_delete_ne. congruence.
Qed.

Lemma without_file_none file p (fs : filesystem) :
  fs !! p = None -> without_file file fs !! p = None.
Proof.
  intros Hp. unfold without_file. destruct file as [q|]; [|done].
  destruct (String.eqb q ""); [done|].
  destruct (decide (q = p)) as [->|]; [apply lookup_delete_eq|].
  by rewrite lookup_delete_ne.
Qed.

(** [delete_cached] on a cached video whose file the system unlinks takes
    the entry out of the cache and its file off the disk, and leaves the
    other entries and the other files alone; this is done also when
    [save_cache] then raises and the answer is 500.  Afterwards
    [get_metadata] answers 404, a second [delete_cached] answers 404 and
    changes nothing, and [create_job] for the video makes a new queued job.
    When the system refuses to unlink the file, the answer is 500 with the
    message of the system, and the entry, like everything else, stays as it
    is.  The jobs are never touched. *)
Theorem delete_cached_removes refuses save vid s entry :
  cache s !! vid = Some entry ->
  let r := delete_cached refuses save vid s in
  ((forall p, ce_file entry = Some p -> p <> "" -> refuses p = None) ->
   r.1 = match save with
         | None => CacheDeleted vid
         | Some msg => CacheError msg 500
         end
   /\ cache r.2 !! vid = None
   /\ (forall k, k <> vid -> cache r.2 !! k = cache s !! k)
   /\ (forall p, ce_file entry = Some p -> p <> "" -> disk r.2 !! p = None)
   /\ (forall p, ce_file entry <> Some p -> disk r.2 !! p = disk s !! p)
   /\ get_metadata (cache r.2) vid
      = JsonResponse (ErrorBody "Not in cache") 404
   /\ (forall refuses' save',
         delete_cached refuses' save' vid r.2
         = (CacheError "Not found" 404, r.2))
   /\ (forall new_id now url title m,
         create_job (cache r.2) (disk r.2) new_id now vid url title m
         = (new_job new_id vid url title now,
            {| jobs := <[new_id := new_job new_id vid url title now]> (jobs m);
               job_queue := job_queue m ++ [new_id] |})))
  /\ (forall p msg,
        ce_file entry = Some p -> p <> "" -> refuses p = Some msg ->
        r = (CacheError msg 500, s))
  /\ job_manager r.2 = job_manager s.
Proof.
  intros Hentry r. unfold r, delete_cached. rewrite Hentry.
  rewrite remove_if_exists_spec. split_and!.
  - intros Hfree.
    set (s' := {| job_manager := job_manager s;
                  cache := delete vid (cache s);
                  disk := without_file (ce_file entry) (disk s) |}).
    assert (match ce_file entry with
            | Some p =>
                if String.eqb p "" then inr (disk s)
                else match refuses p with
                     | Some msg => inl msg
                     | None => inr (without_file (ce_file entry) (disk s))
                     end
            | None => inr (disk s)
            end = (inr (without_file (ce_file entry) (disk s))
                   : string + filesystem)) as ->.
    { destruct (ce_file entry) as [p|] eqn:Hp; [|done].
      destruct (String.eqb_spec p "") as [->|Hne]; [done|].
      by rewrite (Hfree p). }
    fold s'.
    assert ((match save with
             | Some msg => (CacheError msg 500, s')
             | None => (CacheDeleted vid, s')
             end).2 = s') as -> by (by destruct save).
    assert (cache s' !! vid = None) as Hgone by apply lookup_delete_eq.
    split_and!.
    + by destruct save.
    + done.
    + intros k Hk. by apply lookup_delete_ne.
    + intros p Hp Hne. simpl. rewrite Hp. by apply without_file_gone.
    + intros p Hp. by apply without_file_other.
    + unfold get_metadata. by rewrite Hgone.
    + intros refuses' save'. unfold delete_cached. by rewrite Hgone.
    + intros. apply create_job_miss. by left.
  - intros p msg Hp Hne Hmsg. rewrite Hp, Hmsg.
    by destruct (String.eqb_spec p "").
  - destruct (ce_file entry) as [p|]; [|by destruct save].
    destruct (String.eqb p ""); [by destruct save|].
    destruct (refuses p); [done|by destruct save].
Qed.

Lemma delete_cached_removes_witness :
  let s := {| job_manager := empty_manager; cache := sample_cache;
              disk := sample_disk 4 |} in
  delete_cached (refuses_at "/srv/audio/a.mp3" "[Errno 13] Permission denied")
    None "dQw4w9WgXcQ" s
  = (CacheError "[Errno 13] Permission denied" 500, s)
  /\ (let r := delete_cached refuses_nothing (Some "disk full")
                 "dQw4w9WgXcQ" s in
      r.1 = CacheError "disk full" 500
      /\ cache r.2 !! "dQw4w9WgXcQ" = None
      /\ disk r.2 !! "/srv/audio/a.mp3" = None).
Proof.
  intros s. split.
  - pose proof (delete_cached_removes
                  (refuses_at "/srv/audio/a.mp3" "[Errno 13] Permission denied")
                  None "dQw4w9WgXcQ" s (sample_entry "/srv/audio/a.mp3")
                  eq_refl) as (_ & H & _).
    apply (H "/srv/audio/a.mp3"); [reflexivity|discriminate|reflexivity].
  - pose proof (delete_cached_removes refuses_nothing (Some "disk full")
                  "dQw4w9WgXcQ" s (sample_entry "/srv/audio/a.mp3") eq_refl)
      as (H & _).
    destruct H as (H1 & H2 & _ & H4 & _); [reflexivity|].
    split_and!; [exact H1|exact H2|].
    apply H4; [reflexivity|discriminate].
Defined.

(** The body of the loop acts on the entries that are too old and whose
    file the system unlinks, and on no other. *)
Lemma cleanup_entry_evicted fromisoformat refuses cutoff vid entry acc :
  cleanup_entry fromisoformat refuses cutoff vid entry acc
  = if evicted fromisoformat refuses cutoff entry
    then (delete vid acc.1.1, without_file (ce_file entry) acc.1.2,
          acc.2 + 1)
    else acc.
Proof.
  unfold cleanup_entry, evicted, expired, stuck.
  destruct (ce_downloaded_at entry) as [[|c t]|]; try done.
  destruct (fromisoformat _) as [[d|d]|]; try done.
  destruct (d <? cutoff); [|done]. rewrite remove_if_exists_spec.
  unfold without_file. destruct (ce_file entry) as [p|]; [|done].
  destruct (String.eqb p ""); [done|]. by destruct (refuses p).
Qed.

(** One pass of the cleanup takes out exactly the entries that are too old
    and whose file the system unlinks, and [deleted] counts them.  The
    entries without a time, those whose time cannot be read or has an
    offset, those whose time is not before the cutoff and those whose
    file the system refuses to unlink stay as they are.  The jobs are not
    touched. *)
Theorem cleanup_pass_cache fromisoformat refuses cutoff s :
  let r := cleanup_pass fromisoformat refuses cutoff s in
  (forall k,
     cache r.1 !! k
     = match cache s !! k with
       | Some entry =>
           if evicted fromisoformat refuses cutoff entry then None
           else Some entry
       | None => None
       end)
  /\ (forall k entry p msg,
        cache s !! k = Some entry ->
        ce_file entry = Some p -> p <> "" -> refuses p = Some msg ->
        cache r.1 !! k = Some entry)
  /\ (forall k entry t d,
        cache s !! k = Some entry ->
        ce_downloaded_at entry = Some t -> fromisoformat t = Some (Aware d) ->
        cache r.1 !! k = Some entry)
  /\ r.2 = Z.of_nat (size (filter (fun kv => evicted fromisoformat refuses
                                               cutoff kv.2 = true) (cache s)))
  /\ r.2 = Z.of_nat (size (cache s)) - Z.of_nat (size (cache r.1))
  /\ job_manager r.1 = job_manager s.
Proof.
  intros r.
  set (ev := evicted fromisoformat refuses cutoff).
  set (P := fun (acc : cache_store * filesystem * Z) (m : cache_store) =>
    (forall k,
       acc.1.1 !! k
       = match m !! k with
         | Some entry => if ev entry then None else cache s !! k
         | None => cache s !! k
         end)
    /\ acc.2 = Z.of_nat (size (filter (fun kv => ev kv.2 = true) m))).
  assert (P (map_fold (cleanup_entry fromisoformat refuses cutoff)
               (cache s, disk s, 0) (cache s)) (cache s)) as [Hcache Hcount].
  { apply (map_fold_weak_ind P).
    - split; [intros k; by rewrite lookup_empty|].
      by rewrite map_filter_empty, map_size_empty.
    - intros i x m acc Hi [IHc IHn]. rewrite cleanup_entry_evicted. fold ev.
      destruct (ev x) eqn:Hx; split; simpl.
      + intros k. destruct (decide (k = i)) as [->|Hk].
        * by rewrite lookup_delete_eq, lookup_insert_eq, Hx.
        * by rewrite lookup_delete_ne, lookup_insert_ne, IHc.
      + rewrite map_filter_insert_True by done.
        rewrite map_size_insert_None, IHn; [lia|].
        apply map_lookup_filter_None. by left.
      + intros k. destruct (decide (k = i)) as [->|Hk].
        * by rewrite lookup_insert_eq, Hx, IHc, Hi.
        * by rewrite lookup_insert_ne, IHc.
      + rewrite map_filter_insert_False by (simpl; congruence).
        by rewrite delete_id. }
  assert (forall k,
    cache r.1 !! k
    = match cache s !! k with
      | Some entry => if ev entry then None else Some entry
      | None => None
      end) as Hlookup.
  { intros k. unfold r, cleanup_pass. simpl. rewrite Hcache.
    destruct (cache s !! k) as [entry|] eqn:Hk; [|done].
    by destruct (ev entry). }
  split_and!; [done| | |done| |done].
  - intros k entry p msg Hk Hp Hne Hmsg. rewrite Hlookup, Hk.
    unfold ev, evicted, stuck. rewrite Hp, Hmsg.
    destruct (String.eqb_spec p ""); [done|]. by rewrite andb_false_r.
  - intros k entry t d Hk Ht Hd. rewrite Hlookup, Hk.
    unfold ev, evicted, expired. rewrite Ht.
    destruct t; [done|]. by rewrite Hd.
  - assert (cache r.1 = filter (fun kv => ev kv.2 <> true) (cache s)) as ->.
    { apply map_eq. intros k. rewrite Hlookup, map_lookup_filter.
      destruct (cache s !! k) as [entry|]; simpl; [|done].
      destruct (ev entry); simpl; by rewrite ?option_guard_True,
        ?option_guard_False by (done || congruence). }
    unfold r, cleanup_pass. simpl. rewrite Hcount.
    pose proof (map_size_disj_union
                  (filter (fun kv => ev kv.2 = true) (cache s))
                  (filter (fun kv => ev kv.2 <> true) (cache s))) as Hsize.
    rewrite map_filter_union_complement in Hsize.
    rewrite Hsize by apply map_disjoint_filter_complement. lia.
Qed.

(** One pass of the cleanup takes off the disk the file of every entry it
    takes out of the cache, and leaves every file alone that no such entry
    points at: the files of the entries that stay and the files the system
    refuses to unlink are among these. *)
Theorem cleanup_pass_disk fromisoformat refuses cutoff s p :
  let r := cleanup_pass fromisoformat refuses cutoff s in
  ((exists k entry,
      cache s !! k = Some entry
      /\ evicted fromisoformat refuses cutoff entry = true
      /\ ce_file entry = Some p /\ p <> "") ->
   disk r.1 !! p = None /\ refuses p = None)
  /\ ((forall k entry,
         cache s !! k = Some entry ->
         evicted fromisoformat refuses cutoff entry = true ->
         ce_file entry <> Some p) ->
      disk r.1 !! p = disk s !! p)
  /\ (p <> "" -> is_Some (refuses p) -> disk r.1 !! p = disk s !! p).
Proof.
  intros r.
  set (ev := evicted fromisoformat refuses cutoff).
  set (P := fun (acc : cache_store * filesystem * Z) (m : cache_store) =>
    ((exists k entry,
        m !! k = Some entry /\ ev entry = true
        /\ ce_file entry = Some p /\ p <> "") ->
     acc.1.2 !! p = None)
    /\ ((forall k entry,
           m !! k = Some entry -> ev entry = true ->
           ce_file entry <> Some p) ->
        acc.1.2 !! p = disk s !! p)).
  assert (P (map_fold (cleanup_entry fromisoformat refuses cutoff)
               (cache s, disk s, 0) (cache s)) (cache s)) as [Hgone Hkept].
  { apply (map_fold_weak_ind P).
    - split; [|done].
      intros (k & entry & Hk & _). by rewrite lookup_empty in Hk.
    - intros i x m acc Hi [IHgone IHkept]. rewrite cleanup_entry_evicted.
      fold ev. split.
      + intros (k & entry & Hk & Hexp & Hfile & Hp).
        destruct (decide (k = i)) as [->|Hne].
        * rewrite lookup_insert_eq in Hk. injection Hk as ->.
          rewrite Hexp. simpl. rewrite Hfile. by apply without_file_gone.
        * rewrite lookup_insert_ne in Hk by done.
          assert (acc.1.2 !! p = None) as Hnone by (apply IHgone; eauto 10).
          destruct (ev x); [|done]. simpl. by apply without_file_none.
      + intros Hno.
        assert (acc.1.2 !! p = disk s !! p) as Hsame.
        { apply IHkept. intros k entry Hk. apply (Hno k).
          rewrite lookup_insert_ne; [done|]. congruence. }
        destruct (ev x) eqn:Hx; [|done]. simpl.
        rewrite without_file_other; [done|].
        apply (Hno i); [apply lookup_insert_eq|done]. }
  split_and!.
  - intros Hev. split; [by apply Hgone|].
    destruct Hev as (k & entry & _ & Hexp & Hfile & Hp).
    unfold ev, evicted, stuck in Hexp. rewrite Hfile in Hexp.
    apply andb_prop in Hexp as [_ Hexp]. apply negb_true_iff in Hexp.
    destruct (String.eqb_spec p ""); [done|]. by destruct (refuses p).
  - done.
  - intros Hp [msg Hmsg]. apply Hkept. intros k entry _ Hexp Hfile.
    unfold ev, evicted, stuck in Hexp. rewrite Hfile, Hmsg in Hexp.
    destruct (String.eqb_spec p ""); [done|]. by rewrite andb_false_r in Hexp.
Qed.

Lemma cleanup_pass_disk_witness :
  let s := {| job_manager := empty_manager; cache := sample_cache;
              disk := sample_disk 4 |} in
  let r := cleanup_pass (fun _ => Some (Naive 10)) refuses_nothing 50 s in
  (disk r.1 !! "/srv/audio/a.mp3" = None
   /\ refuses_nothing "/srv/audio/a.mp3" = None)
  /\ cache r.1 !! "dQw4w9WgXcQ" = None /\ r.2 = 1.
Proof.
  intros s. split; [|split; reflexivity].
  apply (cleanup_pass_disk (fun _ => Some (Naive 10)) refuses_nothing 50 s
           "/srv/audio/a.mp3").
  exists "dQw4w9WgXcQ", (sample_entry "/srv/audio/a.mp3").
  split_and!; [reflexivity|reflexivity|reflexivity|discriminate].
Defined.

End CacheEviction.

(** ** More on one run of [_process_job] *)

Section ProcessJobFrame.







(** A run that ends completed makes its video a cache hit: on the cache
    and the disk that the run leaves, [create_job] for the video answers
    with a job that is completed at once, with the stream url, the file
    path and the metadata of the job that has just been fetched, and puts
    nothing on the queue; [get_metadata] answers with the same stream url
    and metadata and the time of the run. *)
Theorem completed_run_is_cached AUDIO_DIR w s0 :
  error (ws_job s0) = None ->
  let s := (_process_job AUDIO_DIR w s0).2 in
  status (ws_job s) = completed ->
  let vid := video_id (ws_job s0) in
  (forall new_id now url title m,
     let r := create_job (ws_cache s) (ws_fs s) new_id now vid url title m in
     status r.1 = completed /\ progress r.1 = 100
     /\ stream_url r.1 = stream_url (ws_job s)
     /\ file_path r.1 = file_path (ws_job s)
     /\ metadata r.1 = metadata (ws_job s)
     /\ job_queue r.2 = job_queue m
     /\ get_job r.2 new_id = Some r.1)
  /\ get_metadata (ws_cache s) vid
     = JsonResponse
         (MetadataBody vid (metadata (ws_job s))
            (default "" (stream_url (ws_job s))) (Some (run_now w)))
         200.
Proof.
  intros Herr s Hdone vid.
  destruct (process_job_run AUDIO_DIR w s0 Herr)
    as (s' & pre & Hrun & _ & _ & _ & _ & Hend & _).
  assert (s = s') as -> by (unfold s; by rewrite Hrun).
  destruct Hend as [(_ & _ & _ & out & Hcache & Hvalid & Hpath & Hurl)
                   |(Hfailed & _)]; [|congruence].
  split.
  - intros new_id now url title m r. unfold r, vid.
    rewrite (create_job_hit _ _ _ _ _ _ _ _ _ out Hcache eq_refl Hvalid).
    unfold get_job. simpl. rewrite Hurl, Hpath, lookup_insert_eq.
    by split_and!.
  - unfold get_metadata, vid. rewrite Hcache, Hurl. done.
Qed.

Lemma completed_run_is_cached_witness :
  let s0 := {| ws_job := sample_job; ws_cache := ∅; ws_fs := ∅;
               ws_published := [] |} in
  let s := (_process_job "/srv/audio" (sample_run []) s0).2 in
  let r := create_job (ws_cache s) (ws_fs s) "job-2" "t1" "dQw4w9WgXcQ"
             "https://youtu.be/dQw4w9WgXcQ" "" empty_manager in
  status r.1 = completed
  /\ stream_url r.1 = Some "/stream/f-1.mp3"
  /\ job_queue r.2 = [].
Proof.
  intros s0 s r.
  destruct (completed_run_is_cached "/srv/audio" (sample_run []) s0
              eq_refl eq_refl) as [H _].
  destruct (H "job-2" "t1" "https://youtu.be/dQw4w9WgXcQ" "" empty_manager)
    as (H1 & _ & H3 & _ & _ & H6 & _).
  split_and!; [exact H1|exact H3|exact H6].
Defined.

End ProcessJobFrame.
